(** * Word-timestamped lyric documents: the two transcription pipelines

    A shallow embedding of [transcribe.py] (free transcription: line
    segmentation by pause) and [transcribe_v2.py] (guided alignment: word
    mapping, timestamp repair, section labels), and the properties of the
    design document proved about it.

    Numbers.  Python's [float] is IEEE-754 binary64.  Times are modelled
    as [spec_float] with the operations of [SpecFloat] at precision 53 and
    maximal exponent 1024, so every sum, difference and comparison below
    rounds exactly as the interpreter does.  Python's [int] is [Z].

    Text.  A Python [str] is modelled as a [string] whose characters are
    the code points below 256. *)

From Stdlib Require Import ZArith Ascii String Floats.SpecFloat.
From stdpp Require Import base option list strings pretty gmap fin_maps sorting.

Local Open Scope Z_scope.

(** ** Binary64 numbers *)

Module F64.

Definition prec : Z := 53.
Definition emax : Z := 1024.

Abbreviation float := spec_float.

Definition add : float -> float -> float := SFadd prec emax.
Definition sub : float -> float -> float := SFsub prec emax.
Definition div : float -> float -> float := SFdiv prec emax.
Definition ltb : float -> float -> bool := SFltb.
Definition leb : float -> float -> bool := SFleb.
(** [a > b] and [a >= b] are [b < a] and [b <= a]. *)
Definition gtb (a b : float) : bool := SFltb b a.
Definition geb (a b : float) : bool := SFleb b a.

(** A Python [int] used where a float is expected. *)
Definition of_Z (n : Z) : float := binary_normalize prec emax n 0 false.

(** The value of a decimal literal with two fractional digits, written
    in hundredths: [lit 28] is the literal [0.28].  The interpreter
    reads a literal as the binary64 number nearest to it, which is the
    correctly rounded quotient of the two integers. *)
Definition lit (hundredths : Z) : float := div (of_Z hundredths) (of_Z 100).

Definition is_finite (x : float) : bool :=
  match x with
  | S754_zero _ | S754_finite _ _ _ => true
  | S754_infinity _ | S754_nan => false
  end.

Definition is_nan (x : float) : bool :=
  match x with S754_nan => true | _ => false end.

(** [m * 2^e] scaled by 100 and rounded to the nearest integer, ties to
    the even one. *)
Definition scale100_half_even (m : positive) (e : Z) : Z :=
  let n := 100 * Z.pos m in
  match e with
  | Zneg p =>
      let d := Z.pow 2 (Z.pos p) in
      let q := n / d in
      let r := n mod d in
      match Z.compare (2 * r) d with
      | Lt => q
      | Gt => q + 1
      | Eq => if Z.even q then q else q + 1
      end
  | _ => n * Z.pow 2 e
  end.

(** The builtin [round(x, 2)] on a float: infinities and NaN are
    returned as they are; a finite [x] is rounded, on its exact value,
    to two decimals (ties to even), and the decimal result is read back
    as the nearest binary64 number.  The sign of a zero result is the
    sign of [x]. *)
Definition round2 (x : float) : float :=
  match x with
  | S754_finite s m e =>
      match scale100_half_even m e with
      | Zpos q => div (S754_finite s q 0) (of_Z 100)
      | _ => S754_zero s
      end
  | _ => x
  end.

End F64.

Import F64.

(** ** Text: [str.strip], [str.split] and [str.join] *)

Module Text.

(** [str.isspace] on the code points below 256: tab to carriage return,
    the four separators 28..31, the space, NEL (133) and the
    no-break space (160). *)
Definition isspace (c : ascii) : bool :=
  let n := Z.of_nat (nat_of_ascii c) in
  ((9 <=? n) && (n <=? 13)) || ((28 <=? n) && (n <=? 32))
  || (n =? 133) || (n =? 160).

Fixpoint lstrip (s : string) : string :=
  match s with
  | String c s' => if isspace c then lstrip s' else s
  | EmptyString => EmptyString
  end.

Definition rstrip (s : string) : string := String.rev (lstrip (String.rev s)).

(** [s.strip()] *)
Definition strip (s : string) : string := rstrip (lstrip s).

(** The truth value of a string: it is not empty. *)
Definition truthy (s : string) : bool :=
  match s with EmptyString => false | String _ _ => true end.

(** [split_from w s]: the words of [s], where [w] is the part already
    read of the word under the cursor. *)
Fixpoint split_from (w s : string) : list string :=
  match s with
  | EmptyString => if truthy w then [w] else []
  | String c s' =>
      if isspace c
      then (if truthy w then w :: split_from EmptyString s'
            else split_from EmptyString s')
      else split_from (w +:+ String c EmptyString) s'
  end.

(** [s.split()]: the maximal runs of characters that are not white
    space. *)
Definition split (s : string) : list string := split_from EmptyString s.

(** [sep.join(l)] *)
Definition join (sep : string) (l : list string) : string :=
  String.concat sep l.

(** [str(i)] on an integer. *)
Definition str (i : Z) : string := pretty i.

#[global] Instance str_inj : Inj (=) (=) str.
Proof. unfold str. apply _. Qed.

(** [enumerate(l)] *)
Definition enumerate {A} (l : list A) : list (Z * A) :=
  imap (fun i x => (Z.of_nat i, x)) l.

End Text.

Import Text.

(** ** Data model *)

(** A word of the alignment engine: [word_obj.word], [.start], [.end]. *)
Record WordObj := mkWordObj {
  wo_word : string;
  wo_start : float;
  wo_end : float;
}.

(** A segment of the alignment result: [segment.id], [segment.words]. *)
Record Segment := mkSegment {
  seg_id : Z;
  seg_words : list WordObj;
}.

(** The dictionary [{"word", "time", "line"}] of the output. *)
Record WordRecord := mkWord {
  word : string;
  time : float;
  line : Z;
}.

Definition set_time (w : WordRecord) (t : float) : WordRecord :=
  {| word := word w; time := t; line := line w |}.

(** ** [transcribe.py]: free transcription *)

Module Free.

(** The dictionary staged by the segmentation loop: a word record and
    the scratch key ["_end"], which [dict.get] may find absent. *)
Record Staged := mkStaged {
  s_rec : WordRecord;
  s_end : option float;
}.

Record State := mkState {
  words : list Staged;
  line_idx : Z;
  prev_seg : Z;
}.

Definition init : State :=
  {| words := []; line_idx := 0; prev_seg := -1 |}.

(** [words[-1].get("_end", words[-1]["time"] + 0.3)] *)
Definition last_end (lw : Staged) : float :=
  default (add (time (s_rec lw)) (lit 30)) (s_end lw).

(** The test of lines 51 to 54: does the line counter move before the
    word of segment [sid] starting (rounded) at [t] is appended? *)
Definition breaks (st : State) (sid : Z) (t : float) : bool :=
  match last (words st) with
  | Some lw =>
      negb (sid =? prev_seg st) && gtb (sub t (last_end lw)) (lit 80)
  | None => false
  end.

(** One turn of the inner loop, lines 44 to 62. *)
Definition step (sid : Z) (st : State) (word_obj : WordObj) : State :=
  let w := strip (wo_word word_obj) in
  if negb (truthy w) then st
  else
    let t := round2 (wo_start word_obj) in
    let line_idx' :=
      if breaks st sid t then line_idx st + 1 else line_idx st in
    {| words := words st ++
         [ {| s_rec := {| word := w; time := t; line := line_idx' |};
              s_end := Some (round2 (wo_end word_obj)) |} ];
       line_idx := line_idx';
       prev_seg := sid |}.

(** The two nested loops, lines 43 to 62. *)
Definition segmenter (segments : list Segment) : State :=
  fold_left
    (fun st segment => fold_left (step (seg_id segment)) (seg_words segment) st)
    segments init.

(** Lines 65 and 66: the scratch key is deleted. *)
Definition unstage (ws : list Staged) : list WordRecord := map s_rec ws.

(** Lines 69 to 71: [lines.setdefault(w["line"], []).append(w["word"])]. *)
Definition group_step (lines : gmap Z (list string)) (w : WordRecord)
  : gmap Z (list string) :=
  <[ line w := default [] (lines !! line w) ++ [word w] ]> lines.

Definition group (ws : list WordRecord) : gmap Z (list string) :=
  fold_left group_step ws ∅.

(** Line 72. *)
Definition line_texts (ws : list WordRecord) : gmap Z string :=
  join " " <$> group ws.

Record Output := mkOutput {
  out_words : list WordRecord;
  out_lines : gmap Z string;
  totalWords : nat;
  totalLines : nat;
}.

(** Lines 74 to 79. *)
Definition assemble (ws : list WordRecord) : Output :=
  {| out_words := ws;
     out_lines := line_texts ws;
     totalWords := length ws;
     totalLines := size (line_texts ws) |}.

Definition transcribe (segments : list Segment) : Output :=
  assemble (unstage (words (segmenter segments))).

(** The turns of the two nested loops in the order they run: every word
    with the [id] of its segment. *)
Definition flat (segments : list Segment) : list (Z * WordObj) :=
  segments ≫= (fun segment => map (pair (seg_id segment)) (seg_words segment)).

(** The state after the turns [turns], starting from line 39 to 41. *)
Definition run (turns : list (Z * WordObj)) : State :=
  fold_left (fun st turn => step turn.1 st turn.2) turns init.

(** The turns that append a word: those whose text is not blank. *)
Definition appended (turns : list (Z * WordObj)) : list (Z * WordObj) :=
  filter (fun turn => truthy (strip (wo_word turn.2)) = true) turns.

(** What the state remembers of the turns run so far: nothing was
    appended and [words] is empty, or [prev_seg] is the segment of the
    last appended word and the last dictionary records its rounded
    start and end. *)
Definition remembers (st : State) (turns : list (Z * WordObj)) : Prop :=
  match last (appended turns) with
  | None => words st = []
  | Some (psid, p) =>
      prev_seg st = psid /\
      exists lw, last (words st) = Some lw /\
        s_end lw = Some (round2 (wo_end p)) /\
        time (s_rec lw) = round2 (wo_start p)
  end.

End Free.

(** ** [transcribe_v2.py]: guided alignment *)

Module Guided.

(** The dictionary [{"word", "start", "end"}] of lines 95 to 99. *)
Record Aligned := mkAligned {
  aw_word : string;
  aw_start : float;
  aw_end : float;
}.

(** Lines 92 to 99: a word that is not blank is appended, its two
    times rounded. *)
Definition collect (acc : list Aligned) (word_obj : WordObj) : list Aligned :=
  let w := strip (wo_word word_obj) in
  if truthy w
  then acc ++ [ {| aw_word := w;
                   aw_start := round2 (wo_start word_obj);
                   aw_end := round2 (wo_end word_obj) |} ]
  else acc.

(** Lines 90 to 99. *)
Definition all_aligned_words (segments : list Segment) : list Aligned :=
  fold_left (fun acc segment => fold_left collect (seg_words segment) acc)
    segments [].

(** Lines 109 to 123: one expected word.  The state is the list [words]
    and the cursor [idx]; [aligned !! idx] is [Some] exactly when
    [idx < len(all_aligned_words)].  The integer [0] of line 118 is the
    float zero. *)
Definition map_word (aligned : list Aligned) (line_num : Z)
    (st : list WordRecord * nat) (expected_word : string)
  : list WordRecord * nat :=
  let '(words, idx) := st in
  match aligned !! idx with
  | Some aw =>
      (words ++ [ {| word := expected_word; time := aw_start aw;
                     line := line_num |} ], S idx)
  | None =>
      let last_t :=
        match last words with
        | Some lw => add (time lw) (lit 30)
        | None => of_Z 0
        end in
      (words ++ [ {| word := expected_word; time := round2 last_t;
                     line := line_num |} ], idx)
  end.

(** Lines 106 to 123: one ground-truth line. *)
Definition map_line (aligned : list Aligned)
    (st : list WordRecord * nat) (entry : Z * string)
  : list WordRecord * nat :=
  fold_left (map_word aligned entry.1) (split entry.2) st.

(** Lines 104 to 123. *)
Definition word_mapper (lyrics : list string) (aligned : list Aligned)
  : list WordRecord :=
  (fold_left (map_line aligned) (enumerate lyrics) ([], 0%nat)).1.

(** Line 126: [{str(i): line for i, line in enumerate(LYRICS_LINES)}]. *)
Definition line_texts (lyrics : list string) : gmap string string :=
  fold_left (fun m entry => <[ str entry.1 := entry.2 ]> m)
    (enumerate lyrics) ∅.

(** Lines 136 to 155: position [i] of one pass.  [st] is the list, as
    mutated so far, and the counter [fixed]. *)
Definition fix_at (st : list WordRecord * nat) (i : nat)
  : list WordRecord * nat :=
  let '(words, fixed) := st in
  match words !! (i - 1)%nat, words !! i with
  | Some p, Some c =>
      let prev_time := time p in
      let cur_time := time c in
      if line c =? line p then
        if ltb cur_time prev_time || gtb (sub cur_time prev_time) (lit 400)
        then (<[ i := set_time c (round2 (add prev_time (lit 28))) ]> words,
              S fixed)
        else st
      else
        if ltb cur_time prev_time
        then (<[ i := set_time c (round2 (add prev_time (lit 60))) ]> words,
              S fixed)
        else if gtb (sub cur_time prev_time) (lit 1000)
        then (<[ i := set_time c (round2 (add prev_time (lit 200))) ]> words,
              S fixed)
        else st
  | _, _ => st
  end.

(** Lines 131 to 157: [range(1, len(words))] from left to right.  The
    result is the mutated list and the returned count. *)
Definition fix_timestamps (words : list WordRecord) : list WordRecord * nat :=
  fold_left fix_at (seq 1 (length words - 1)) (words, 0%nat).

(** The names that the loop of lines 160 to 165 leaves bound. *)
Record Repair := mkRepair {
  r_words : list WordRecord;
  total_fixed : nat;
  pass_num : option nat;
  r_n : option nat;
}.

(** Lines 161 to 165 over the passes still to run. *)
Fixpoint repair_loop (passes : list nat) (st : Repair) : Repair :=
  match passes with
  | [] => st
  | p :: rest =>
      let '(ws, n) := fix_timestamps (r_words st) in
      let st' := {| r_words := ws; total_fixed := (total_fixed st + n)%nat;
                    pass_num := Some p; r_n := Some n |} in
      if (n =? 0)%nat then st' else repair_loop rest st'
  end.

(** Lines 160 to 165. *)
Definition repair (words : list WordRecord) : Repair :=
  repair_loop (seq 0 5)
    {| r_words := words; total_fixed := 0; pass_num := None; r_n := None |}.

Record Section_ := mkSection {
  sec_time : float;
  label : string;
}.

(** [sorted(section_map.items())]: the keys of a dictionary are
    distinct, so the pairs are ordered by their key alone. *)
Definition key_le (a b : Z * string) : Prop := a.1 <= b.1.

#[global] Instance key_le_dec : RelDecision key_le.
Proof. intros a b. unfold key_le. apply _. Defined.

#[global] Instance key_le_trans : Transitive key_le.
Proof. intros a b c. unfold key_le. lia. Qed.

#[global] Instance key_le_total : Total key_le.
Proof. intros a b. unfold key_le. lia. Qed.

Definition sorted_items (section_map : gmap Z string) : list (Z * string) :=
  merge_sort key_le (map_to_list section_map).

(** Lines 179 to 181. *)
Definition label_line (words : list WordRecord)
    (sections : list Section_) (entry : Z * string) : list Section_ :=
  let line_w := filter (fun w => line w = entry.1) words in
  match line_w with
  | w0 :: _ =>
      sections ++ [ {| sec_time := round2 (sub (time w0) (lit 50));
                       label := entry.2 |} ]
  | [] => sections
  end.

(** Lines 177 to 181. *)
Definition sections_of (section_map : gmap Z string) (words : list WordRecord)
  : list Section_ :=
  fold_left (label_line words) (sorted_items section_map) [].

Record Output := mkOutput {
  out_words : list WordRecord;
  out_lines : gmap string string;
  out_sections : list Section_;
  totalWords : nat;
  totalLines : nat;
}.

(** Lines 86 to 189: the pipeline on the alignment result. *)
Definition transcribe (lyrics : list string) (section_map : gmap Z string)
    (segments : list Segment) : Output :=
  let words := r_words (repair (word_mapper lyrics (all_aligned_words segments))) in
  {| out_words := words;
     out_lines := line_texts lyrics;
     out_sections := sections_of section_map words;
     totalWords := length words;
     totalLines := size (line_texts lyrics) |}.

(** The test of lines 140 to 155 on a record [c] and its predecessor
    [p]: is [c] rewritten? *)
Definition anomalous (p c : WordRecord) : bool :=
  if line c =? line p
  then ltb (time c) (time p) || gtb (sub (time c) (time p)) (lit 400)
  else ltb (time c) (time p) || gtb (sub (time c) (time p)) (lit 1000).

(** The expected words in the order lines 106 to 108 visit them, each
    with its line number. *)
Definition expected (lyrics : list string) : list (Z * string) :=
  enumerate lyrics ≫= (fun entry => map (pair entry.1) (split entry.2)).

(** The word objects that lines 92 to 99 keep. *)
Definition observations (segments : list Segment) : list WordObj :=
  filter (fun o => truthy (strip (wo_word o)) = true)
    (segments ≫= seg_words).

(** One turn of the two nested loops of lines 106 to 123, and the
    state after the turns [turns]. *)
Definition map_turn (aligned : list Aligned)
    (st : list WordRecord * nat) (turn : Z * string) : list WordRecord * nat :=
  map_word aligned turn.1 st turn.2.

Definition run_map (aligned : list Aligned) (turns : list (Z * string))
  : list WordRecord * nat :=
  fold_left (map_turn aligned) turns ([], 0%nat).

(** The dictionary that lines 95 to 99 build from a word object. *)
Definition aligned_of (o : WordObj) : Aligned :=
  {| aw_word := strip (wo_word o);
     aw_start := round2 (wo_start o);
     aw_end := round2 (wo_end o) |}.

End Guided.

(** ** The constants of [transcribe_v2.py] *)

Local Open Scope string_scope.

(** Lines 30 to 76.  The eight lines of the chorus stand three times in
    the list. *)
Definition chorus : list string :=
  [ "It's been two years and you're still not gone";
    "Doesn't make sense that I can't move on";
    "Yeah, I try, I try, I try, I try";
    "But this love never dies";
    "Two years since you've been in my bed";
    "Even had a funeral for you in my head";
    "Yeah, I try, I try, I try, I try";
    "But this love never dies" ].

Definition LYRICS_LINES : list string :=
  [ "How'd it all fall apart?";
    "You were right here before, in my arms";
    "Now you're invisible";
    "But the heartbreak's physical";
    "Got a place, moved away";
    "Somewhere with a different code, different state";
    "Still feels miserable";
    "God, it's so chemical";
    "All that I know";
    "Is I can't let you go" ]
  ++ chorus ++
  [ "Another night, another vice";
    "Even try with someone new, someone nice";
    "I'll always hate the fact that you";
    "Ruined everybody after you";
    "I'm always coming back to you" ]
  ++ chorus ++ chorus.

(** Lines 170 to 176. *)
Definition section_map : gmap Z string :=
  <[ 23 := "Chorus" ]> (<[ 18 := "Verse 2" ]> (<[ 10 := "Chorus" ]>
  (<[ 8 := "Pre-Chorus" ]> (<[ 0 := "Verse 1" ]> ∅)))).

(** ** The words of the design document, for comparison *)

Module Design.

(** "grouping WordRecords by [line] and space-joining their [word]
    fields in sequence order": the text of line [k]. *)
Definition line_text (ws : list WordRecord) (k : Z) : string :=
  join " " (map word (filter (fun w => line w = k) ws)).

(** The mapping from the line indices that occur to their texts. *)
Definition lines_of (ws : list WordRecord) : gmap Z string :=
  list_to_map (map (fun w => (line w, line_text ws (line w))) ws).

(** The same mapping under the keys that the written document has: an
    integer key is written as its decimal string. *)
Definition written (m : gmap Z string) : gmap string string :=
  kmap str m.

(** A ground-truth line that is its own space-join and has a word. *)
Definition normalised (l : string) : Prop :=
  join " " (split l) = l /\ split l <> [].

(** The total number [W] of expected words. *)
Definition expected_count (lyrics : list string) : nat :=
  sum_list (map (fun l => length (split l)) lyrics).

(** The bounds on an adjacent pair: the later time is not below the
    earlier one, and the gap is at most 4.0 on one line and at most
    10.0 across two lines.  Both are comparisons of binary64 numbers,
    and the gap is the binary64 difference. *)
Definition ordered (p c : WordRecord) : Prop :=
  geb (time c) (time p) = true /\
  (line c = line p -> leb (sub (time c) (time p)) (lit 400) = true) /\
  (line c <> line p -> leb (sub (time c) (time p)) (lit 1000) = true).

(** The section of a mapped line whose first word is [w]. *)
Definition anchor (lab : string) (w : WordRecord) : Guided.Section_ :=
  {| Guided.sec_time := round2 (sub (time w) (lit 50)); Guided.label := lab |}.

(** The empty document. *)
Definition empty_free (out : Free.Output) : Prop :=
  Free.out_words out = [] /\ Free.out_lines out = ∅ /\
  Free.totalWords out = 0%nat /\ Free.totalLines out = 0%nat.

Definition empty_guided (out : Guided.Output) : Prop :=
  Guided.out_words out = [] /\ Guided.out_lines out = ∅ /\
  Guided.totalWords out = 0%nat /\ Guided.totalLines out = 0%nat.

(** "A full pass applies zero fixes." *)
Definition converged (ws : list WordRecord) : Prop :=
  (Guided.fix_timestamps ws).2 = 0%nat.

Definition finite_times (ws : list WordRecord) : Prop :=
  Forall (fun w => is_finite (time w) = true) ws.

(** The first word of line [L], if the line has one. *)
Definition first_word (ws : list WordRecord) (L : Z) : option WordRecord :=
  head (filter (fun w => line w = L) ws).

(** A mapped line with its label and its first word. *)
Definition anchored (ws : list WordRecord) (entry : Z * string)
  : option (Z * string * WordRecord) :=
  pair entry <$> first_word ws entry.1.

(** The records of a sequence as pairs of a line and a word. *)
Definition entries (ws : list WordRecord) : list (Z * string) :=
  map (fun w => (line w, word w)) ws.

(** The pause test on the values the loop records: the word of the turn
    is appended, a word was appended before it, the two segments differ,
    and the start of the word rounded to two decimals minus the end of
    the last appended word rounded to two decimals is above 0.8. *)
Definition pause_break (before : list (Z * WordObj)) (sid : Z) (o : WordObj)
  : Prop :=
  truthy (strip (wo_word o)) = true /\
  exists psid p,
    last (Free.appended before) = Some (psid, p) /\
    sid <> psid /\
    gtb (sub (round2 (wo_start o)) (round2 (wo_end p))) (lit 80) = true.

(** The pause test on the observations as they come: the same, with the
    start of the word and the end of the last appended word as the
    alignment gives them. *)
Definition raw_pause_break (before : list (Z * WordObj)) (sid : Z) (o : WordObj)
  : Prop :=
  truthy (strip (wo_word o)) = true /\
  exists psid p,
    last (Free.appended before) = Some (psid, p) /\
    sid <> psid /\
    gtb (sub (wo_start o) (wo_end p)) (lit 80) = true.

End Design.

(** ** The example of the design document *)

Section Example.

Local Open Scope string_scope.

Definition example_lyrics : list string := [ "hello world"; "goodbye now" ].

(** The observations (hello, 0.00, 0.40), (world, 5.20, 5.50),
    (goodbye, 5.60, 6.00), (now, 6.10, 6.40), as one segment. *)
Definition example_segments : list Segment :=
  [ {| seg_id := 0;
       seg_words :=
         [ mkWordObj "hello" (lit 0) (lit 40);
           mkWordObj "world" (lit 520) (lit 550);
           mkWordObj "goodbye" (lit 560) (lit 600);
           mkWordObj "now" (lit 610) (lit 640) ] |} ].

Definition example_mapped : list WordRecord :=
  Guided.word_mapper example_lyrics (Guided.all_aligned_words example_segments).

(** The final sequence the design document expects. *)
Definition example_claimed : list WordRecord :=
  [ mkWord "hello" (lit 0) 0; mkWord "world" (lit 68) 0;
    mkWord "goodbye" (lit 560) 1; mkWord "now" (lit 610) 1 ].

(** The final sequence the program computes. *)
Definition example_final : list WordRecord :=
  [ mkWord "hello" (lit 0) 0; mkWord "world" (lit 28) 0;
    mkWord "goodbye" (lit 560) 1; mkWord "now" (lit 610) 1 ].

(** The value of a decimal literal with three fractional digits, written
    in thousandths: [milli 1304] is the literal [1.304]. *)
Definition milli (thousandths : Z) : float := div (of_Z thousandths) (of_Z 1000).

(** A word that ends at 0.5 and, in the next segment, a word that starts
    at 1.304: the pause is 0.804, and 0.8 on the rounded values. *)
Definition pause_before_a : list (Z * WordObj) :=
  [ (0, mkWordObj "one" (lit 0) (lit 50)) ].
Definition pause_word_a : WordObj := mkWordObj "two" (milli 1304) (lit 160).

(** A word that ends at 1.404 and, in the next segment, a word that
    starts at 2.196: the pause is 0.792, and above 0.8 on the rounded
    values 1.4 and 2.2. *)
Definition pause_before_b : list (Z * WordObj) :=
  [ (0, mkWordObj "one" (lit 100) (milli 1404)) ].
Definition pause_word_b : WordObj := mkWordObj "two" (milli 2196) (lit 250).

End Example.

(** ** The rest of the two scripts *)

Module More.

(** A string with a white-space character in it. *)
Fixpoint has_space (s : string) : bool :=
  match s with
  | EmptyString => false
  | String c s' => isspace c || has_space s'
  end.

(** [transcribe_v2.py], line 79: [FULL_TEXT = "\n".join(LYRICS_LINES)],
    the text handed to the aligner. *)
Definition newline : string := String (ascii_of_nat 10) EmptyString.

Definition full_text (lyrics : list string) : string := join newline lyrics.

(** [transcribe.py], lines 90 to 92: the preview.  [next(...)] on a line
    without a word and [line_texts[i]] on a missing key raise; [None]
    stands for the exception.  A printed row is the time of the first
    word, the line index and the line text. *)
Definition preview_row (ws : list WordRecord) (lt : gmap Z string) (i : nat)
  : option (float * Z * string) :=
  first_word ← Design.first_word ws (Z.of_nat i);
  text ← lt !! Z.of_nat i;
  Some (time first_word, Z.of_nat i, text).

Definition preview (out : Free.Output) : option (list (float * Z * string)) :=
  mapM (preview_row (Free.out_words out) (Free.out_lines out))
    (seq 0 (6 `min` size (Free.out_lines out))).

(** [transcribe_v2.py], lines 136 to 155, read as a function of the
    record [c] and of its predecessor [p] as the pass has left it: the
    record the turn leaves at the position of [c]. *)
Definition repaired (p c : WordRecord) : WordRecord :=
  if (line c =? line p)%Z then
    if ltb (time c) (time p) || gtb (sub (time c) (time p)) (lit 400)
    then set_time c (round2 (add (time p) (lit 28)))
    else c
  else
    if ltb (time c) (time p)
    then set_time c (round2 (add (time p) (lit 60)))
    else if gtb (sub (time c) (time p)) (lit 1000)
    then set_time c (round2 (add (time p) (lit 200)))
    else c.

(** One sweep from left to right over the records after [p]: the
    records it leaves and the number of records it rewrote. *)
Fixpoint sweep (p : WordRecord) (rest : list WordRecord) : list WordRecord * nat :=
  match rest with
  | [] => ([], 0%nat)
  | c :: rest' =>
      let c' := repaired p c in
      let out := sweep c' rest' in
      (c' :: out.1, if Guided.anomalous p c then S out.2 else out.2)
  end.

(** The list that one call of [fix_timestamps] leaves, and its count. *)
Definition pass (ws : list WordRecord) : list WordRecord :=
  (Guided.fix_timestamps ws).1.

Definition fixes (ws : list WordRecord) : nat :=
  (Guided.fix_timestamps ws).2.

(** Is [k] the index of a ground-truth line that has a word? *)
Definition worded (lyrics : list string) (k : Z) : bool :=
  bool_decide (0 <= k)%Z &&
  match lyrics !! Z.to_nat k with
  | Some l => match split l with [] => false | _ :: _ => true end
  | None => false
  end.

End More.

(** * Properties *)

Local Open Scope list_scope.
Local Open Scope Z_scope.

(** ** Binary64: the order is total off NaN, and rounding makes no NaN *)

Section FloatFacts.

Lemma compare_cont_swap (m1 m2 : positive) :
  Pos.compare_cont Eq m2 m1 = CompOpp (Pos.compare_cont Eq m1 m2).
Proof. apply (Pos.compare_antisym m1 m2). Qed.

Lemma SFcompare_swap (a b : float) (c : comparison) :
  SFcompare a b = Some c -> SFcompare b a = Some (CompOpp c).
Proof.
  destruct a as [sa|sa| |sa ma ea], b as [sb|sb| |sb mb eb];
    cbn; intros H; try discriminate; injection H as <-;
    try (destruct sa; reflexivity); try (destruct sb; reflexivity);
    try (destruct sa, sb; reflexivity).
  destruct sa, sb; try reflexivity;
    rewrite (Z.compare_antisym ea eb);
    destruct (ea ?= eb); cbn; try reflexivity;
    rewrite (compare_cont_swap ma mb);
    destruct (Pos.compare_cont Eq ma mb); reflexivity.
Qed.

Lemma SFcompare_defined (a b : float) :
  is_nan a = false -> is_nan b = false -> is_Some (SFcompare a b).
Proof.
  destruct a, b; cbn; intros Ha Hb; try discriminate; eauto.
Qed.

(** Where neither side is NaN, [not (a < b)] is [a >= b]. *)
Lemma ltb_false_geb (a b : float) :
  is_nan a = false -> is_nan b = false ->
  ltb a b = false -> geb a b = true.
Proof.
  intros Ha Hb. unfold ltb, geb, SFltb, SFleb.
  destruct (SFcompare_defined a b Ha Hb) as [c Hc].
  rewrite Hc, (SFcompare_swap _ _ _ Hc).
  destruct c; cbn; congruence.
Qed.

(** Where neither side is NaN, [not (a > b)] is [a <= b]. *)
Lemma gtb_false_leb (a b : float) :
  is_nan a = false -> is_nan b = false ->
  gtb a b = false -> leb a b = true.
Proof.
  intros Ha Hb. unfold gtb, leb, SFltb, SFleb.
  destruct (SFcompare_defined b a Hb Ha) as [c Hc].
  rewrite Hc, (SFcompare_swap _ _ _ Hc).
  destruct c; cbn; congruence.
Qed.

Lemma shr_1_nonneg (mrs : shr_record) :
  0 <= shr_m mrs -> 0 <= shr_m (shr_1 mrs).
Proof.
  destruct mrs as [m r s]; cbn.
  destruct m as [|p|p]; [ | destruct p | ]; cbn; lia.
Qed.

Lemma iter_shr_1_nonneg (p : positive) (mrs : shr_record) :
  0 <= shr_m mrs -> 0 <= shr_m (SpecFloat.iter_pos shr_1 p mrs).
Proof.
  revert mrs. induction p as [p IH|p IH|]; intros mrs H; cbn.
  - apply IH, IH, shr_1_nonneg, H.
  - apply IH, IH, H.
  - apply shr_1_nonneg, H.
Qed.

Lemma shr_fexp_nonneg (p em m e : Z) (l : location) :
  0 <= m -> 0 <= shr_m (shr_fexp p em m e l).1.
Proof.
  intros Hm. unfold shr_fexp, shr.
  assert (H0 : 0 <= shr_m (shr_record_of_loc m l))
    by (destruct l as [|[]]; exact Hm).
  destruct (fexp p em (Zdigits2 m + e) - e); cbn; auto.
  now apply iter_shr_1_nonneg.
Qed.

Lemma round_nearest_even_nonneg (m : Z) (l : location) :
  0 <= m -> 0 <= round_nearest_even m l.
Proof.
  intros Hm. destruct l as [|[]]; cbn; try lia.
  destruct (Z.even m); lia.
Qed.

Lemma binary_round_aux_not_nan (p em : Z) (s : bool) (m e : Z) (l : location) :
  0 <= m -> is_nan (binary_round_aux p em s m e l) = false.
Proof.
  intros Hm. unfold binary_round_aux.
  pose proof (shr_fexp_nonneg p em m e l Hm) as H1.
  destruct (shr_fexp p em m e l) as [mrs1 e1]; cbn in H1.
  pose proof (shr_fexp_nonneg p em _ e1 loc_Exact
    (round_nearest_even_nonneg _ (loc_of_shr_record mrs1) H1)) as H2.
  destruct (shr_fexp p em _ e1 loc_Exact) as [mrs2 e2]; cbn in H2.
  destruct (shr_m mrs2) as [|q|q]; try reflexivity.
  - destruct (e2 <=? em - p); reflexivity.
  - lia.
Qed.

Lemma binary_normalize_not_nan (p em m e : Z) (sz : bool) :
  is_nan (binary_normalize p em m e sz) = false.
Proof.
  destruct m as [|q|q]; cbn; try reflexivity;
    unfold binary_round;
    destruct (shl_align q e _) as [mz ez];
    apply binary_round_aux_not_nan; lia.
Qed.

(** The difference of two finite numbers is a number. *)
Lemma sub_not_nan (a b : float) :
  is_finite a = true -> is_finite b = true -> is_nan (sub a b) = false.
Proof.
  destruct a as [sa|sa| |sa ma ea], b as [sb|sb| |sb mb eb];
    cbn; intros Ha Hb; try discriminate; try reflexivity.
  - destruct sa, sb; reflexivity.
  - apply binary_normalize_not_nan.
Qed.

Lemma finite_not_nan (a : float) : is_finite a = true -> is_nan a = false.
Proof. destruct a; cbn; congruence. Qed.

Lemma lit_400_not_nan : is_nan (lit 400) = false.
Proof. reflexivity. Qed.

Lemma lit_1000_not_nan : is_nan (lit 1000) = false.
Proof. reflexivity. Qed.

End FloatFacts.

(** ** One repair pass *)

Section RepairPass.

Import Guided.

#[local] Arguments fix_at : simpl never.
#[local] Arguments fix_timestamps : simpl never.

(** What a turn of the pass does, by the test [anomalous]. *)
Lemma fix_at_cases (words : list WordRecord) (fixed i : nat) :
  (fix_at (words, fixed) i = (words, fixed) /\
   forall p c, words !! (i - 1)%nat = Some p -> words !! i = Some c ->
     anomalous p c = false)
  \/
  (exists p c t, words !! (i - 1)%nat = Some p /\ words !! i = Some c /\
     anomalous p c = true /\
     fix_at (words, fixed) i = (<[ i := set_time c t ]> words, S fixed)).
Proof.
  unfold fix_at, anomalous.
  destruct (words !! (i - 1)%nat) as [p|] eqn:Hp;
    [ destruct (words !! i) as [c|] eqn:Hc | ];
    try (left; split; [reflexivity | intros ? ? ? ?; congruence]).
  destruct (line c =? line p) eqn:Hl.
  - destruct (ltb (time c) (time p) || gtb (sub (time c) (time p)) (lit 400))
      eqn:Ht.
    + right. exists p, c. eexists. repeat (split; [reflexivity|]).
      split; [|reflexivity]. now rewrite Hl.
    + left. split; [reflexivity|]. intros p' c' [= <-] [= <-].
      now rewrite Hl.
  - destruct (ltb (time c) (time p)) eqn:Hlt.
    + right. exists p, c. eexists. repeat (split; [reflexivity|]).
      split; [|reflexivity]. now rewrite Hl, Hlt.
    + destruct (gtb (sub (time c) (time p)) (lit 1000)) eqn:Hgt.
      * right. exists p, c. eexists. repeat (split; [reflexivity|]).
        split; [|reflexivity]. now rewrite Hl, Hlt.
      * left. split; [reflexivity|]. intros p' c' [= <-] [= <-].
        now rewrite Hl, Hlt.
Qed.

(** The counter never goes down, and where it stands still nothing was
    written and no visited position was anomalous. *)
Lemma fold_fix_count (positions : list nat) (words : list WordRecord)
    (fixed : nat) :
  let out := fold_left fix_at positions (words, fixed) in
  (fixed <= out.2)%nat /\
  (out.2 = fixed ->
     out.1 = words /\
     forall i p c, i ∈ positions ->
       words !! (i - 1)%nat = Some p -> words !! i = Some c ->
       anomalous p c = false).
Proof.
  revert words fixed.
  induction positions as [|i positions IH]; intros words fixed; cbn.
  - split; [lia|]. intros _. split; [reflexivity|].
    intros i p c Hi. inversion Hi.
  - destruct (fix_at_cases words fixed i)
      as [[-> Hok]|(p & c & t & Hp & Hc & Han & ->)].
    + destruct (IH words fixed) as [Hle Hz]. split; [exact Hle|].
      intros Heq. destruct (Hz Heq) as [Hw Hrest]. split; [exact Hw|].
      intros j p c [->|Hj]%elem_of_cons; eauto.
    + destruct (IH (<[ i := set_time c t ]> words) (S fixed)) as [Hle _].
      split; [lia|]. intros Heq. lia.
Qed.

(** A pass that returns zero has changed nothing, and no adjacent pair
    of the list is anomalous. *)
Lemma pass_zero (words : list WordRecord) :
  (fix_timestamps words).2 = 0%nat ->
  fix_timestamps words = (words, 0%nat) /\
  forall i p c, words !! i = Some p -> words !! S i = Some c ->
    anomalous p c = false.
Proof.
  intros Hz. unfold fix_timestamps in *.
  destruct (fold_fix_count (seq 1 (length words - 1)) words 0) as [_ H].
  destruct (H Hz) as [Hw Hpairs]. split.
  - destruct (fold_left _ _ _) as [ws n]; cbn in *. congruence.
  - intros i p c Hp Hc. apply (Hpairs (S i)).
    + apply elem_of_seq. apply lookup_lt_Some in Hc. lia.
    + cbn. rewrite Nat.sub_0_r. exact Hp.
    + exact Hc.
Qed.

(** A pair that is not anomalous, of finite times, keeps the bounds. *)
Lemma calm_ordered (p c : WordRecord) :
  is_finite (time p) = true -> is_finite (time c) = true ->
  anomalous p c = false -> Design.ordered p c.
Proof.
  intros Hp Hc. unfold anomalous, Design.ordered.
  pose proof (finite_not_nan _ Hp) as Np.
  pose proof (finite_not_nan _ Hc) as Nc.
  pose proof (sub_not_nan _ _ Hc Hp) as Ns.
  destruct (Z.eqb_spec (line c) (line p)) as [He|Hne];
    intros [Hlt Hgt]%orb_false_iff; repeat split.
  - now apply ltb_false_geb.
  - intros _. now apply gtb_false_leb.
  - intros Hne. contradiction.
  - now apply ltb_false_geb.
  - intros He. contradiction.
  - intros _. now apply gtb_false_leb.
Qed.

(** A turn at a position from 1 on keeps the length, the texts, the
    lines and the first record. *)
Lemma fix_at_frame (words : list WordRecord) (fixed i : nat) :
  (1 <= i)%nat ->
  let out := fix_at (words, fixed) i in
  length out.1 = length words /\ map word out.1 = map word words /\
  map line out.1 = map line words /\ out.1 !! 0%nat = words !! 0%nat.
Proof.
  intros Hi.
  destruct (fix_at_cases words fixed i)
    as [[-> _]|(p & c & t & Hp & Hc & _ & ->)]; cbn; [tauto|].
  repeat split.
  - apply length_insert.
  - rewrite (list_fmap_insert word). apply list_insert_id.
    rewrite list_lookup_fmap, Hc. reflexivity.
  - rewrite (list_fmap_insert line). apply list_insert_id.
    rewrite list_lookup_fmap, Hc. reflexivity.
  - apply list_lookup_insert_ne. lia.
Qed.

Lemma fold_fix_frame (positions : list nat) (st : list WordRecord * nat) :
  Forall (fun i => (1 <= i)%nat) positions ->
  let out := fold_left fix_at positions st in
  length out.1 = length st.1 /\ map word out.1 = map word st.1 /\
  map line out.1 = map line st.1 /\ out.1 !! 0%nat = st.1 !! 0%nat.
Proof.
  revert st. induction positions as [|i positions IH]; intros st Hall; cbn.
  - tauto.
  - inversion Hall as [|? ? Hi Hrest]; subst.
    destruct (IH (fix_at st i) Hrest) as (H1 & H2 & H3 & H4).
    destruct st as [words fixed].
    destruct (fix_at_frame words fixed i Hi) as (F1 & F2 & F3 & F4).
    cbn in *. rewrite H1, H2, H3, H4. tauto.
Qed.

Lemma pass_frame (words : list WordRecord) :
  let out := (fix_timestamps words).1 in
  length out = length words /\ map word out = map word words /\
  map line out = map line words /\ out !! 0%nat = words !! 0%nat.
Proof.
  apply (fold_fix_frame (seq 1 (length words - 1)) (words, 0%nat)).
  apply Forall_forall. intros i Hi%elem_of_seq. lia.
Qed.

(** The loop of passes: where the last pass returned zero, the list it
    leaves is a fixed point of the pass. *)
Lemma repair_loop_converged (passes : list nat) (st : Repair) :
  passes <> [] ->
  r_n (repair_loop passes st) = Some 0%nat ->
  fix_timestamps (r_words (repair_loop passes st))
    = (r_words (repair_loop passes st), 0%nat).
Proof.
  revert st. induction passes as [|p rest IH]; intros st Hne; [done|].
  cbn. destruct (fix_timestamps (r_words st)) as [ws n] eqn:Hfix.
  destruct (Nat.eqb_spec n 0) as [->|Hn].
  - cbn. intros _.
    destruct (pass_zero (r_words st)) as [Heq _]; [now rewrite Hfix|].
    rewrite Hfix in Heq. injection Heq as ->. exact Hfix.
  - destruct rest as [|q rest].
    + cbn. intros [= ->]. done.
    + apply IH. done.
Qed.

Lemma repair_loop_frame (passes : list nat) (st : Repair) :
  let out := r_words (repair_loop passes st) in
  length out = length (r_words st) /\ map word out = map word (r_words st) /\
  map line out = map line (r_words st).
Proof.
  revert st. induction passes as [|p rest IH]; intros st; cbn; [tauto|].
  pose proof (pass_frame (r_words st)) as (F1 & F2 & F3 & _).
  destruct (fix_timestamps (r_words st)) as [ws n]; cbn in *.
  destruct (n =? 0)%nat; cbn; [tauto|].
  match goal with |- context [repair_loop rest ?s] =>
    destruct (IH s) as (H1 & H2 & H3) end.
  cbn in *. rewrite H1, H2, H3. tauto.
Qed.

End RepairPass.

(** ** The repairer: convergence, idempotence, frame *)

Lemma repair_converged (words : list WordRecord) :
  Guided.r_n (Guided.repair words) = Some 0%nat ->
  Design.converged (Guided.r_words (Guided.repair words)).
Proof.
  intros H. unfold Design.converged, Guided.repair in *.
  rewrite repair_loop_converged; [reflexivity|discriminate|exact H].
Qed.

(** C1.  After the repairer has converged, that is on a sequence on
    which a full pass applies zero fixes, every adjacent pair is ordered:
    the later time is not below the earlier one, and the gap is at most
    4.0 when the two records are on one line and at most 10.0 when they
    are on two lines.  A gap of exactly 4.0 is within the bound.  The
    times are finite binary64 numbers; the comparisons and the gap are
    the interpreter's. *)
Theorem converged_pairs_ordered (words : list WordRecord) :
  Design.converged words ->
  Design.finite_times words ->
  forall (i : nat) (p c : WordRecord),
    words !! i = Some p -> words !! S i = Some c -> Design.ordered p c.
Proof.
  intros Hz Hfin i p c Hp Hc.
  destruct (pass_zero words Hz) as [_ Hcalm].
  unfold Design.finite_times in Hfin. rewrite Forall_forall in Hfin.
  apply calm_ordered.
  - apply Hfin. eapply list_elem_of_lookup_2, Hp.
  - apply Hfin. eapply list_elem_of_lookup_2, Hc.
  - eapply Hcalm; eassumption.
Qed.

Lemma converged_pairs_ordered_witness :
  Design.converged (Guided.r_words (Guided.repair example_mapped)) /\
  forall (i : nat) (p c : WordRecord),
    Guided.r_words (Guided.repair example_mapped) !! i = Some p ->
    Guided.r_words (Guided.repair example_mapped) !! S i = Some c ->
    Design.ordered p c.
Proof.
  split.
  - apply repair_converged. vm_compute. reflexivity.
  - apply (converged_pairs_ordered (Guided.r_words (Guided.repair example_mapped))).
    + apply repair_converged. vm_compute. reflexivity.
    + vm_compute. repeat constructor.
Defined.

(** C7.  The repairer is idempotent at its fixed point: on a sequence
    on which a full pass applies zero fixes, the pass returns the sequence
    as it is, a second pass does the same, and the loop of passes stops
    after its first pass with a total of zero. *)
Theorem repair_idempotent (words : list WordRecord) :
  Design.converged words ->
  Guided.fix_timestamps words = (words, 0%nat) /\
  Guided.fix_timestamps (Guided.fix_timestamps words).1
    = ((Guided.fix_timestamps words).1, 0%nat) /\
  Guided.repair words
    = {| Guided.r_words := words; Guided.total_fixed := 0;
         Guided.pass_num := Some 0%nat; Guided.r_n := Some 0%nat |}.
Proof.
  intros Hz. destruct (pass_zero words Hz) as [Heq _].
  split; [exact Heq|]. split.
  - rewrite Heq. cbn. exact Heq.
  - unfold Guided.repair. cbn [seq Guided.repair_loop Guided.r_words].
    rewrite Heq. reflexivity.
Qed.

Lemma repair_idempotent_witness :
  Design.converged example_final /\
  Guided.fix_timestamps example_final = (example_final, 0%nat).
Proof.
  split.
  - vm_compute. reflexivity.
  - apply (repair_idempotent example_final). vm_compute. reflexivity.
Defined.

(** C10.  A single pass writes nothing but the time of records at
    positions from 1 on: the sequence keeps its length, the record at
    position 0 is the same, and every record is the one it was up to its
    time, so its word and its line are unchanged. *)
Theorem pass_writes_times_only (words : list WordRecord) :
  let out := (Guided.fix_timestamps words).1 in
  length out = length words /\
  out !! 0%nat = words !! 0%nat /\
  (forall (i : nat) (w : WordRecord), words !! i = Some w ->
     exists w', out !! i = Some w' /\ word w' = word w /\ line w' = line w) /\
  map word out = map word words /\ map line out = map line words.
Proof.
  destruct (pass_frame words) as (Hlen & Hword & Hline & Hhead).
  cbv zeta. repeat split; try assumption.
  intros i w Hw.
  destruct ((Guided.fix_timestamps words).1 !! i) as [w'|] eqn:Hw'.
  - exists w'. split; [reflexivity|].
    assert (Hwd : map word (Guided.fix_timestamps words).1 !! i = Some (word w'))
      by (now rewrite list_lookup_fmap, Hw').
    assert (Hln : map line (Guided.fix_timestamps words).1 !! i = Some (line w'))
      by (now rewrite list_lookup_fmap, Hw').
    rewrite Hword, list_lookup_fmap, Hw in Hwd.
    rewrite Hline, list_lookup_fmap, Hw in Hln.
    cbn in *. split; congruence.
  - apply lookup_ge_None in Hw'. apply lookup_lt_Some in Hw. lia.
Qed.

(** C2, as the program computes it.  On the ground truth
    ["hello world"; "goodbye now"] and the four observations of the
    example, the mapper and the repairer leave hello at 0.0, world at
    0.28, goodbye at 5.6 and now at 6.1: the gap of world is measured
    from the time of hello, 0.0, and world is set to 0.0 + 0.28.  One
    fix is applied, in the first pass, and the second pass applies none. *)
Theorem example_repaired :
  example_mapped
    = [ mkWord "hello" (lit 0) 0; mkWord "world" (lit 520) 0;
        mkWord "goodbye" (lit 560) 1; mkWord "now" (lit 610) 1 ] /\
  Guided.fix_timestamps example_mapped = (example_final, 1%nat) /\
  Guided.fix_timestamps example_final = (example_final, 0%nat) /\
  Guided.repair example_mapped
    = {| Guided.r_words := example_final; Guided.total_fixed := 1;
         Guided.pass_num := Some 1%nat; Guided.r_n := Some 0%nat |} /\
  Guided.out_words (Guided.transcribe example_lyrics section_map example_segments)
    = example_final.
Proof. vm_compute. repeat split. Qed.

(** The sequence of the design document, with world at 0.68, is not the
    one the program computes. *)
Lemma example_not_as_claimed :
  Guided.out_words (Guided.transcribe example_lyrics section_map example_segments)
    <> example_claimed.
Proof. vm_compute. intros H. discriminate H. Qed.

(** ** The word mapper *)

Section Mapper.

Import Guided.

Variable aligned : list Aligned.

#[local] Arguments map_word : simpl never.

Lemma fold_map_word (ln : Z) (ws : list string) (st : list WordRecord * nat) :
  fold_left (map_word aligned ln) ws st
    = fold_left (map_turn aligned) (map (pair ln) ws) st.
Proof. revert st. induction ws as [|w ws IH]; intros st; cbn; auto. Qed.

Lemma fold_map_line (entries : list (Z * string)) (st : list WordRecord * nat) :
  fold_left (map_line aligned) entries st
    = fold_left (map_turn aligned)
        (entries ≫= (fun entry => map (pair entry.1) (split entry.2))) st.
Proof.
  revert st. induction entries as [|e entries IH]; intros st; cbn; [done|].
  rewrite fold_left_app, IH. unfold map_line.
  now rewrite fold_map_word.
Qed.

Lemma word_mapper_run (lyrics : list string) :
  word_mapper lyrics aligned = (run_map aligned (expected lyrics)).1.
Proof. unfold word_mapper, run_map, expected. now rewrite fold_map_line. Qed.

Lemma run_map_snoc (turns : list (Z * string)) (turn : Z * string) :
  run_map aligned (turns ++ [turn])
    = map_turn aligned (run_map aligned turns) turn.
Proof. unfold run_map. now rewrite fold_left_app. Qed.

(** What a turn appends. *)
Lemma map_turn_appends (words : list WordRecord) (idx : nat) (turn : Z * string) :
  exists t,
    (map_turn aligned (words, idx) turn).1
      = words ++ [ {| word := turn.2; time := t; line := turn.1 |} ] /\
    (map_turn aligned (words, idx) turn).2
      = (if decide (idx < length aligned)%nat then S idx else idx) /\
    (forall aw, aligned !! idx = Some aw -> t = aw_start aw) /\
    (aligned !! idx = None ->
       t = round2 (match last words with
                   | Some lw => add (time lw) (lit 30)
                   | None => of_Z 0
                   end)).
Proof.
  unfold map_turn, map_word.
  destruct (aligned !! idx) as [aw|] eqn:Haw.
  - exists (aw_start aw). cbn. repeat split.
    + apply lookup_lt_Some in Haw. now rewrite decide_True.
    + now intros ? [= ->].
    + discriminate.
  - eexists. cbn. repeat split.
    + apply lookup_ge_None in Haw. rewrite decide_False; [done|lia].
    + discriminate.
Qed.

(** After the turns [turns], [words] has one record per turn and the
    cursor is the number of observations consumed. *)
Lemma run_map_state (turns : list (Z * string)) :
  length (run_map aligned turns).1 = length turns /\
  (run_map aligned turns).2 = (length turns `min` length aligned)%nat.
Proof.
  induction turns as [|turn turns [IH1 IH2]] using rev_ind; [split; reflexivity|].
  rewrite run_map_snoc.
  destruct (run_map aligned turns) as [words idx]; cbn in IH1, IH2.
  destruct (map_turn_appends words idx turn) as (t & -> & -> & _).
  rewrite !length_app; cbn. split; [lia|].
  case_decide; lia.
Qed.

Lemma length_turns (f : nat -> string -> Z * string) (lyrics : list string) :
  (forall i l, (f i l).2 = l) ->
  length (imap f lyrics ≫= (fun entry => map (pair entry.1) (split entry.2)))
    = sum_list (map (fun l => length (split l)) lyrics).
Proof.
  revert f. induction lyrics as [|l lyrics IH]; intros f Hf; cbn; [reflexivity|].
  rewrite length_app, length_map, Hf. f_equal.
  apply IH. intros i l'. apply Hf.
Qed.

Lemma length_expected (lyrics : list string) :
  length (expected lyrics) = Design.expected_count lyrics.
Proof. apply length_turns. reflexivity. Qed.

(** Later turns leave the records of earlier turns alone. *)
Lemma run_map_app (turns more : list (Z * string)) :
  exists rest,
    (run_map aligned (turns ++ more)).1 = (run_map aligned turns).1 ++ rest.
Proof.
  induction more as [|turn more [rest IH]] using rev_ind.
  - exists []. now rewrite !app_nil_r.
  - rewrite app_assoc, run_map_snoc.
    destruct (run_map aligned (turns ++ more)) as [words idx]; cbn in IH.
    destruct (map_turn_appends words idx turn) as (t & -> & _).
    rewrite IH, <- app_assoc. eauto.
Qed.

Lemma run_map_lookup_prefix (turns more : list (Z * string)) (i : nat) :
  (i < length turns)%nat ->
  (run_map aligned (turns ++ more)).1 !! i = (run_map aligned turns).1 !! i.
Proof.
  intros Hi. destruct (run_map_app turns more) as [rest ->].
  apply lookup_app_l. now rewrite (proj1 (run_map_state turns)).
Qed.

(** The record of the turn at position [i]. *)
Lemma run_map_lookup (turns : list (Z * string)) (i : nat) (turn : Z * string) :
  turns !! i = Some turn ->
  exists r,
    (run_map aligned turns).1 !! i = Some r /\
    word r = turn.2 /\ line r = turn.1 /\
    (forall aw, aligned !! i = Some aw -> time r = aw_start aw) /\
    (aligned !! i = None ->
       (i = 0%nat -> time r = S754_zero false) /\
       (forall j prev, i = S j ->
          (run_map aligned turns).1 !! j = Some prev ->
          time r = round2 (add (time prev) (lit 30)))).
Proof.
  intros Hturn.
  pose proof (take_drop_middle turns i turn Hturn) as Hsplit.
  pose proof (lookup_lt_Some _ _ _ Hturn) as Hlt.
  assert (Hlen : length (take i turns) = i) by (rewrite length_take; lia).
  destruct (run_map_state (take i turns)) as [Hwords Hidx].
  rewrite Hlen in Hwords, Hidx.
  assert (Hpre : forall k, (k < S i)%nat ->
            (run_map aligned turns).1 !! k
              = (run_map aligned (take i turns ++ [turn])).1 !! k).
  { intros k Hk. rewrite <- Hsplit at 1.
    rewrite (cons_middle turn), app_assoc.
    apply run_map_lookup_prefix. rewrite length_app; cbn. lia. }
  pose proof (run_map_snoc (take i turns) turn) as Hsnoc.
  destruct (run_map aligned (take i turns)) as [words idx] eqn:Hrun.
  cbn in Hwords, Hidx.
  destruct (map_turn_appends words idx turn) as (t & Happ & _ & Hsome & Hnone).
  rewrite <- Hsnoc in Happ.
  exists {| word := turn.2; time := t; line := turn.1 |}.
  split; [|split; [reflexivity|split; [reflexivity|split]]].
  - rewrite (Hpre i), Happ by lia.
    rewrite lookup_app_r by lia. now rewrite Hwords, Nat.sub_diag.
  - intros aw Haw. cbn. apply Hsome.
    apply lookup_lt_Some in Haw as Hi.
    now replace idx with i by lia.
  - intros Haw. apply lookup_ge_None in Haw as Hi.
    assert (Hidx' : aligned !! idx = None) by (apply lookup_ge_None; lia).
    specialize (Hnone Hidx'). cbn. split.
    + intros ->. destruct words; [|discriminate]. exact Hnone.
    + intros j prev -> Hprev.
      rewrite (Hpre j), Happ in Hprev by lia.
      rewrite lookup_app_l in Hprev by lia.
      rewrite last_lookup, Hwords in Hnone. cbn in Hnone.
      now rewrite Hprev in Hnone.
Qed.

End Mapper.

(** The list [all_aligned_words] holds the kept word objects in order,
    each with its times rounded. *)
Lemma fold_collect (os : list WordObj) (acc : list Guided.Aligned) :
  fold_left Guided.collect os acc
    = acc ++ map Guided.aligned_of
               (filter (fun o => truthy (strip (wo_word o)) = true) os).
Proof.
  revert acc. induction os as [|o os IH]; intros acc; cbn [fold_left].
  - now rewrite filter_nil, app_nil_r.
  - rewrite IH. unfold Guided.collect.
    destruct (truthy (strip (wo_word o))) eqn:Hw.
    + rewrite filter_cons_True by exact Hw. now rewrite <- app_assoc.
    + rewrite filter_cons_False; [reflexivity|]. now rewrite Hw.
Qed.

Lemma all_aligned_words_observations (segments : list Segment) :
  Guided.all_aligned_words segments
    = map Guided.aligned_of (Guided.observations segments).
Proof.
  unfold Guided.all_aligned_words, Guided.observations.
  change (map Guided.aligned_of
            (filter (fun o => truthy (strip (wo_word o)) = true) (segments ≫= seg_words)))
    with ([] ++ map Guided.aligned_of
            (filter (fun o => truthy (strip (wo_word o)) = true) (segments ≫= seg_words))).
  generalize (@nil Guided.Aligned).
  induction segments as [|s segments IH]; intros acc; cbn.
  - now rewrite app_nil_r.
  - rewrite IH, fold_collect, filter_app, map_app. now rewrite <- app_assoc.
Qed.

Lemma mapper_count (lyrics : list string) (aligned : list Guided.Aligned) :
  length (Guided.word_mapper lyrics aligned) = Design.expected_count lyrics.
Proof.
  rewrite word_mapper_run, (proj1 (run_map_state aligned _)).
  apply length_expected.
Qed.

(** C3.  For every list of ground-truth lines, whose lines split into
    [W] expected words in all, and every list of aligned observations,
    shorter than [W], of length [W] or longer, the mapper returns exactly
    [W] records. *)
Theorem mapper_word_count (lyrics : list string) (aligned : list Guided.Aligned) :
  length (Guided.word_mapper lyrics aligned) = Design.expected_count lyrics.
Proof. apply mapper_count. Qed.

(** C5.  The record of the [i]-th expected word carries the text of the
    expected word and the number of its line.  Where the [i]-th kept
    observation exists, the time of the record is the start of that
    observation rounded to two decimals.  Where the observations have run
    out, the time is 0.0 for the very first expected word, and otherwise
    the time of the previous record plus 0.3, rounded to two decimals. *)
Theorem mapper_record (lyrics : list string) (segments : list Segment)
    (i : nat) (ln : Z) (expected_word : string) :
  Guided.expected lyrics !! i = Some (ln, expected_word) ->
  let words := Guided.word_mapper lyrics (Guided.all_aligned_words segments) in
  exists r,
    words !! i = Some r /\ word r = expected_word /\ line r = ln /\
    (forall o, Guided.observations segments !! i = Some o ->
       time r = round2 (wo_start o)) /\
    (Guided.observations segments !! i = None ->
       (i = 0%nat -> time r = S754_zero false) /\
       (forall j prev, i = S j -> words !! j = Some prev ->
          time r = round2 (add (time prev) (lit 30)))).
Proof.
  intros Hturn. cbv zeta. rewrite word_mapper_run.
  destruct (run_map_lookup (Guided.all_aligned_words segments) _ _ _ Hturn)
    as (r & Hr & Hw & Hl & Hsome & Hnone).
  exists r. split; [exact Hr|]. split; [exact Hw|]. split; [exact Hl|].
  rewrite all_aligned_words_observations in *.
  split.
  - intros o Ho. apply (Hsome (Guided.aligned_of o)).
    now rewrite list_lookup_fmap, Ho.
  - intros Ho. apply Hnone.
    now rewrite list_lookup_fmap, Ho.
Qed.

Lemma mapper_record_witness :
  exists r,
    Guided.word_mapper example_lyrics (Guided.all_aligned_words example_segments)
      !! 1%nat = Some r /\
    word r = "world" /\ line r = 0 /\ time r = lit 520.
Proof.
  destruct (mapper_record example_lyrics example_segments 1 0 "world")
    as (r & Hr & Hw & Hl & Hsome & _); [reflexivity|].
  exists r. repeat split; try assumption.
  apply (Hsome (mkWordObj "world" (lit 520) (lit 550))). reflexivity.
Defined.

(** With no observation at all the times are 0, 0.3 and 0.6. *)
Example mapper_synthesises :
  Guided.word_mapper [ "a b c" ] []
    = [ mkWord "a" (of_Z 0) 0; mkWord "b" (lit 30) 0; mkWord "c" (lit 60) 0 ].
Proof. vm_compute. reflexivity. Qed.

(** ** The line segmenter *)

Section Segmenter.

Import Free.

#[local] Arguments step : simpl never.

Lemma fold_step (sid : Z) (os : list WordObj) (st : State) :
  fold_left (step sid) os st
    = fold_left (fun st turn => step turn.1 st turn.2) (map (pair sid) os) st.
Proof. revert st. induction os as [|o os IH]; intros st; cbn; auto. Qed.

(** The two nested loops are one loop over the turns. *)
Lemma segmenter_run (segments : list Segment) :
  segmenter segments = run (flat segments).
Proof.
  unfold segmenter, run, flat. generalize init.
  induction segments as [|s segments IH]; intros st; cbn; [done|].
  now rewrite fold_left_app, IH, fold_step.
Qed.

Lemma run_snoc (turns : list (Z * WordObj)) (turn : Z * WordObj) :
  run (turns ++ [turn]) = step turn.1 (run turns) turn.2.
Proof. unfold run. now rewrite fold_left_app. Qed.

Lemma appended_snoc (turns : list (Z * WordObj)) (turn : Z * WordObj) :
  appended (turns ++ [turn])
    = appended turns ++ (if truthy (strip (wo_word turn.2)) then [turn] else []).
Proof.
  unfold appended. rewrite filter_app. f_equal.
  destruct (truthy (strip (wo_word turn.2))) eqn:Hw.
  - now rewrite filter_cons_True.
  - rewrite filter_cons_False; [done|]. now rewrite Hw.
Qed.

Lemma run_remembers (turns : list (Z * WordObj)) : remembers (run turns) turns.
Proof.
  induction turns as [|turn turns IH] using rev_ind; [reflexivity|].
  unfold remembers in *. rewrite run_snoc, appended_snoc. unfold step.
  destruct (truthy (strip (wo_word turn.2))) eqn:Hw; cbn [negb].
  - rewrite last_snoc. destruct turn as [sid o]. cbn.
    split; [reflexivity|]. eexists. rewrite last_snoc.
    split; [reflexivity|]. split; reflexivity.
  - now rewrite app_nil_r.
Qed.

End Segmenter.

(** The effective end that the loop reads off the last dictionary is
    the recorded end, the end of the last appended word rounded to two
    decimals: the fallback of [dict.get] is never taken. *)
Lemma last_end_recorded (before : list (Z * WordObj)) (psid : Z) (p : WordObj) :
  last (Free.appended before) = Some (psid, p) ->
  Free.prev_seg (Free.run before) = psid /\
  exists lw, last (Free.words (Free.run before)) = Some lw /\
             Free.last_end lw = round2 (wo_end p).
Proof.
  intros Hlast. pose proof (run_remembers before) as Hrem.
  unfold Free.remembers in Hrem. rewrite Hlast in Hrem.
  destruct Hrem as [Hseg (lw & Hlw & Hend & _)].
  split; [exact Hseg|]. exists lw. split; [exact Hlw|].
  unfold Free.last_end. now rewrite Hend.
Qed.

(** C4, as the program has it.  The two nested loops run the turns of
    [flat] one after the other.  At a turn, the line counter goes up by
    one exactly when the word is appended (its text is not blank), a word
    was appended before it, the segment of this turn differs from the
    segment of the last appended word, and the start of this word rounded
    to two decimals minus the end of the last appended word rounded to
    two decimals is above 0.8, in binary64.  The rounded end is the
    recorded end that the program reads as the effective end.  In every
    other case, so within one segment or for such a gap of at most 0.8,
    the counter keeps its value. *)
Theorem line_counter_rounded :
  (forall segments, Free.segmenter segments = Free.run (Free.flat segments)) /\
  forall (before : list (Z * WordObj)) (sid : Z) (o : WordObj),
    let st := Free.run before in
    let st' := Free.run (before ++ [(sid, o)]) in
    (Free.line_idx st' = Free.line_idx st + 1 <-> Design.pause_break before sid o) /\
    (Free.line_idx st' = Free.line_idx st + 1 \/
     Free.line_idx st' = Free.line_idx st).
Proof.
  split; [exact segmenter_run|].
  intros before sid o. cbv zeta. unfold Design.pause_break.
  rewrite run_snoc. cbn [fst snd].
  unfold Free.step, Free.breaks.
  destruct (truthy (strip (wo_word o))) eqn:Hw; cbn [negb].
  2: { split; [|now right]. split; [lia|]. intros [? _]. discriminate. }
  destruct (last (Free.appended before)) as [[psid p]|] eqn:Hlast.
  - destruct (last_end_recorded before psid p Hlast) as [Hseg (lw & Hlw & Hend)].
    rewrite Hlw, Hseg, Hend.
    destruct (Z.eqb_spec sid psid) as [->|Hne]; cbn [negb andb].
    + split; [|now right]. split; [cbn; lia|].
      intros (_ & ? & ? & [= <- <-] & Hn & _). now destruct Hn.
    + destruct (gtb (sub (round2 (wo_start o)) (round2 (wo_end p))) (lit 80))
        eqn:Hgap; cbn.
      * split; [|now left]. split; [|reflexivity]. intros _.
        split; [reflexivity|]. exists psid, p. repeat split; assumption.
      * split; [|now right]. split; [lia|].
        intros (_ & ? & ? & [= <- <-] & _ & Hg). congruence.
  - pose proof (run_remembers before) as Hrem.
    unfold Free.remembers in Hrem. rewrite Hlast in Hrem.
    rewrite Hrem. cbn. split; [|now right]. split; [lia|].
    intros (_ & ? & ? & [=] & _).
Qed.

Lemma line_counter_rounded_witness :
  Free.line_idx (Free.run (pause_before_b ++ [ (1, pause_word_b) ]))
    = Free.line_idx (Free.run pause_before_b) + 1.
Proof.
  apply (proj1 (proj2 line_counter_rounded pause_before_b 1 pause_word_b)).
  split; [reflexivity|].
  eexists _, _.
  split; [reflexivity|]. split; [discriminate|]. vm_compute. reflexivity.
Defined.

(** On the observations as they come the test is another one.  After a
    word that ends at 0.5, a word of the next segment that starts at 1.304
    pauses for more than 0.8, and the counter stays.  After a word that
    ends at 1.404, a word of the next segment that starts at 2.196 pauses
    for less than 0.8, and the counter moves. *)
Lemma line_counter_not_raw :
  (Design.raw_pause_break pause_before_a 1 pause_word_a /\
   Free.line_idx (Free.run (pause_before_a ++ [ (1, pause_word_a) ]))
     = Free.line_idx (Free.run pause_before_a)) /\
  (~ Design.raw_pause_break pause_before_b 1 pause_word_b /\
   Free.line_idx (Free.run (pause_before_b ++ [ (1, pause_word_b) ]))
     = Free.line_idx (Free.run pause_before_b) + 1).
Proof.
  split; split.
  - split; [reflexivity|]. eexists _, _.
    split; [reflexivity|]. split; [discriminate|]. vm_compute. reflexivity.
  - vm_compute. reflexivity.
  - intros (_ & psid & p & Hlast & _ & Hgap).
    vm_compute in Hlast. injection Hlast as <- <-.
    vm_compute in Hgap. discriminate Hgap.
  - vm_compute. reflexivity.
Qed.

(** A pause of 1.0 between two segments moves to the next line; the same
    pause inside one segment does not. *)
Example pause_breaks :
  map line (Free.out_words (Free.transcribe
    [ mkSegment 0 [ mkWordObj "one" (lit 0) (lit 50) ];
      mkSegment 1 [ mkWordObj "two" (lit 150) (lit 200);
                    mkWordObj "three" (lit 300) (lit 350) ] ]))
  = [ 0; 1; 1 ].
Proof. vm_compute. reflexivity. Qed.

(** ** The section labeler *)

Section Labeler.

Import Guided.

Lemma fold_label (ws : list WordRecord) (entries : list (Z * string))
    (acc : list Section_) :
  fold_left (label_line ws) entries acc
    = acc ++ map (fun x => Design.anchor x.1.2 x.2)
               (omap (Design.anchored ws) entries).
Proof.
  revert acc. induction entries as [|e entries IH]; intros acc; cbn [fold_left].
  - cbn. now rewrite app_nil_r.
  - rewrite IH. unfold label_line, Design.anchored, Design.first_word.
    cbn [omap list_omap].
    destruct (filter (fun w => line w = e.1) ws) as [|w0 rest]; cbn.
    + reflexivity.
    + now rewrite <- app_assoc.
Qed.

Lemma sorted_items_keys (m : gmap Z string) :
  StronglySorted Z.lt (sorted_items m).*1.
Proof.
  unfold sorted_items.
  pose proof (StronglySorted_merge_sort key_le (map_to_list m)) as Hs.
  assert (Hnd : NoDup (merge_sort key_le (map_to_list m)).*1).
  { rewrite merge_sort_Permutation. apply NoDup_fst_map_to_list. }
  induction Hs as [|e l Hs IH Hall]; cbn; [constructor|].
  apply NoDup_cons in Hnd as [Hnot Hnd].
  constructor; [now apply IH|].
  apply Forall_fmap, Forall_forall. intros e' He'.
  rewrite Forall_forall in Hall. specialize (Hall e' He').
  unfold key_le in Hall. cbn.
  assert (e.1 <> e'.1).
  { intros Heq. apply Hnot. rewrite Heq. now apply list_elem_of_fmap_2. }
  lia.
Qed.

Lemma omap_anchored_keys (ws : list WordRecord) (entries : list (Z * string)) :
  StronglySorted Z.lt entries.*1 ->
  StronglySorted Z.lt
    (map (fun x : Z * string * WordRecord => x.1.1)
       (omap (Design.anchored ws) entries)).
Proof.
  induction entries as [|e entries IH]; cbn; [constructor|].
  intros Hs. apply StronglySorted_inv in Hs as [Hs Hall].
  unfold Design.anchored at 1.
  destruct (Design.first_word ws e.1) as [w|]; cbn; [|now apply IH].
  constructor; [now apply IH|].
  apply Forall_fmap, Forall_forall.
  intros [e' w'] (e'' & He'' & Hin)%list_elem_of_omap.
  unfold Design.anchored in Hin.
  destruct (Design.first_word ws e''.1); [|discriminate].
  injection Hin as <- <-. cbn.
  rewrite Forall_fmap, Forall_forall in Hall. now apply Hall.
Qed.

Lemma elem_of_anchored (m : gmap Z string) (ws : list WordRecord)
    (L : Z) (lab : string) (w : WordRecord) :
  (L, lab, w) ∈ omap (Design.anchored ws) (sorted_items m) <->
  m !! L = Some lab /\ Design.first_word ws L = Some w.
Proof.
  rewrite list_elem_of_omap. unfold sorted_items, Design.anchored. split.
  - intros ([L' lab'] & Hin & Hsome).
    rewrite merge_sort_Permutation in Hin.
    apply elem_of_map_to_list in Hin. cbn in Hsome.
    destruct (Design.first_word ws L') as [w'|] eqn:Hw; [|discriminate].
    cbn in Hsome. injection Hsome as -> -> ->. now split.
  - intros [Hm Hw]. exists (L, lab). split.
    + rewrite merge_sort_Permutation. now apply elem_of_map_to_list.
    + cbn. now rewrite Hw.
Qed.

End Labeler.

(** C6.  The sections are the anchors of a list of mapped lines: the
    list holds exactly the entries (line [L], label) of the mapping whose
    line has a first word [w], each with that word; its line indices are
    strictly ascending; and the section of an entry has the label of the
    entry and the time [round(T - 0.5, 2)], [T] the time of [w].  So an
    entry whose line has a word has its section, a mapped line without a
    word has none, and the sections follow the line indices. *)
Theorem sections_anchored (section_map : gmap Z string) (words : list WordRecord) :
  exists entries : list (Z * string * WordRecord),
    Guided.sections_of section_map words
      = map (fun x => Design.anchor x.1.2 x.2) entries /\
    StronglySorted Z.lt (map (fun x : Z * string * WordRecord => x.1.1) entries) /\
    (forall L lab w,
       (L, lab, w) ∈ entries <->
       section_map !! L = Some lab /\ Design.first_word words L = Some w) /\
    (forall L lab w,
       section_map !! L = Some lab -> Design.first_word words L = Some w ->
       {| Guided.sec_time := round2 (sub (time w) (lit 50));
          Guided.label := lab |} ∈ Guided.sections_of section_map words).
Proof.
  exists (omap (Design.anchored words) (Guided.sorted_items section_map)).
  assert (Heq : Guided.sections_of section_map words
                = map (fun x => Design.anchor x.1.2 x.2)
                    (omap (Design.anchored words) (Guided.sorted_items section_map))).
  { unfold Guided.sections_of. now rewrite fold_label. }
  split; [exact Heq|]. split; [|split].
  - apply omap_anchored_keys, sorted_items_keys.
  - intros L lab w. apply elem_of_anchored.
  - intros L lab w Hm Hw. rewrite Heq.
    apply (list_elem_of_fmap_2 (fun x => Design.anchor x.1.2 x.2) _ (L, lab, w)).
    now apply elem_of_anchored.
Qed.

Lemma sections_anchored_witness :
  {| Guided.sec_time := round2 (sub (lit 0) (lit 50)); Guided.label := "Verse 1" |}
    ∈ Guided.sections_of section_map example_final.
Proof.
  destruct (sections_anchored section_map example_final) as (es & _ & _ & _ & H).
  apply (H 0 "Verse 1" (mkWord "hello" (lit 0) 0)).
  - vm_compute. reflexivity.
  - vm_compute. reflexivity.
Defined.

(** The sections of the repaired example under the mapping
    [{0: "Verse 1", 1: "Chorus", 7: "Bridge"}]: line 7 has no word. *)
Example sections_of_example :
  Guided.sections_of
    (<[ 7 := "Bridge" ]> (<[ 1 := "Chorus" ]> (<[ 0 := "Verse 1" ]> ∅)))
    example_final
  = [ {| Guided.sec_time := round2 (sub (lit 0) (lit 50)); Guided.label := "Verse 1" |};
      {| Guided.sec_time := lit 510; Guided.label := "Chorus" |} ].
Proof. vm_compute. reflexivity. Qed.

(** ** The lines mapping *)

Section Lines.

(** The dictionary of lines 69 to 71, key by key. *)
Lemma fold_group_lookup (ws : list WordRecord) (m : gmap Z (list string)) (k : Z) :
  fold_left Free.group_step ws m !! k
    = if decide (filter (fun w => line w = k) ws = [])
      then m !! k
      else Some (default [] (m !! k)
                 ++ map word (filter (fun w => line w = k) ws)).
Proof.
  revert m. induction ws as [|w ws IH]; intros m; cbn [fold_left].
  - rewrite filter_nil. now rewrite decide_True.
  - rewrite IH. unfold Free.group_step.
    destruct (decide (line w = k)) as [Hk|Hk].
    + rewrite filter_cons_True by exact Hk.
      rewrite (decide_False (P := _ :: _ = [])) by discriminate.
      rewrite Hk, lookup_insert_eq. cbn [from_option id].
      case_decide as Hrest.
      * now rewrite Hrest.
      * cbn [map]. now rewrite <- app_assoc.
    + rewrite filter_cons_False by exact Hk.
      now rewrite lookup_insert_ne.
Qed.

Lemma lines_of_lookup (ws : list WordRecord) (g : Z -> string) (k : Z) :
  (list_to_map (map (fun w => (line w, g (line w))) ws) : gmap Z string) !! k
    = if decide (filter (fun w => line w = k) ws = [])
      then None else Some (g k).
Proof.
  induction ws as [|w ws IH]; cbn [map list_to_map foldr].
  - rewrite filter_nil. now rewrite decide_True.
  - destruct (decide (line w = k)) as [Hk|Hk].
    + rewrite filter_cons_True by exact Hk.
      rewrite (decide_False (P := _ :: _ = [])) by discriminate.
      cbn. now rewrite Hk, lookup_insert_eq.
    + rewrite filter_cons_False by exact Hk.
      cbn. now rewrite lookup_insert_ne.
Qed.

(** The free pipeline builds the mapping of the design document. *)
Lemma free_lines (ws : list WordRecord) :
  Free.line_texts ws = Design.lines_of ws.
Proof.
  apply map_eq. intros k. unfold Free.line_texts, Free.group, Design.lines_of.
  rewrite lookup_fmap, fold_group_lookup, lookup_empty.
  rewrite (lines_of_lookup ws (Design.line_text ws) k).
  case_decide; reflexivity.
Qed.

Lemma enumerate_snoc {A} (l : list A) (x : A) :
  enumerate (l ++ [x]) = enumerate l ++ [(Z.of_nat (length l), x)].
Proof.
  unfold enumerate. rewrite imap_app. cbn. now rewrite Nat.add_0_r.
Qed.

(** The guided pipeline keys the ground-truth lines by their index. *)
Lemma line_texts_kmap (lyrics : list string) :
  Guided.line_texts lyrics = kmap str (map_seqZ 0 lyrics : gmap Z string).
Proof.
  unfold Guided.line_texts.
  induction lyrics as [|l lyrics IH] using rev_ind.
  - cbn. now rewrite kmap_empty.
  - rewrite enumerate_snoc, fold_left_app, IH. cbn.
    rewrite map_seqZ_snoc, Z.add_0_l. now rewrite (kmap_insert str).
Qed.

Lemma size_line_texts (lyrics : list string) :
  size (Guided.line_texts lyrics) = length lyrics.
Proof.
  induction lyrics as [|l lyrics IH] using rev_ind; [reflexivity|].
  rewrite line_texts_kmap, map_seqZ_snoc, (kmap_insert str), <- line_texts_kmap.
  rewrite map_size_insert_None.
  - rewrite IH, length_app. cbn. lia.
  - rewrite line_texts_kmap, (lookup_kmap str).
    apply lookup_map_seqZ_None. right. lia.
Qed.

Lemma expected_snoc (lyrics : list string) (l : string) :
  Guided.expected (lyrics ++ [l])
    = Guided.expected lyrics ++ map (pair (Z.of_nat (length lyrics))) (split l).
Proof.
  unfold Guided.expected. rewrite enumerate_snoc, bind_app. cbn.
  now rewrite app_nil_r.
Qed.

Lemma filter_pair (n k : Z) (ws : list string) :
  filter (fun e : Z * string => e.1 = k) (map (pair n) ws)
    = if decide (n = k) then map (pair k) ws else [].
Proof.
  induction ws as [|w ws IH]; cbn [map].
  - rewrite filter_nil. now case_decide.
  - case_decide as Hn.
    + rewrite filter_cons_True by exact Hn. rewrite IH. now subst.
    + rewrite filter_cons_False by exact Hn. exact IH.
Qed.

(** The expected words of line [k], picked out of all of them. *)
Lemma filter_expected (lyrics : list string) (k : Z) :
  filter (fun e : Z * string => e.1 = k) (Guided.expected lyrics)
    = match (map_seqZ 0 lyrics : gmap Z string) !! k with
      | Some l => map (pair k) (split l)
      | None => []
      end.
Proof.
  induction lyrics as [|l lyrics IH] using rev_ind.
  - change (map_seqZ 0 [] : gmap Z string) with (∅ : gmap Z string).
    now rewrite lookup_empty.
  - rewrite expected_snoc, filter_app, IH, filter_pair, map_seqZ_snoc.
    case_decide as Hk.
    + rewrite <- Hk, Z.add_0_l, lookup_insert_eq.
      replace ((map_seqZ 0 lyrics : gmap Z string) !! Z.of_nat (length lyrics))
        with (@None string); [reflexivity|].
      symmetry. apply lookup_map_seqZ_None. right. lia.
    + rewrite lookup_insert_ne by lia. now rewrite app_nil_r.
Qed.

(** The mapper lays the expected words down in order. *)
Lemma entries_run_map (aligned : list Guided.Aligned) (turns : list (Z * string)) :
  Design.entries (Guided.run_map aligned turns).1 = turns.
Proof.
  induction turns as [|turn turns IH] using rev_ind; [reflexivity|].
  rewrite run_map_snoc.
  destruct (Guided.run_map aligned turns) as [words idx]; cbn in IH.
  destruct (map_turn_appends aligned words idx turn) as (t & -> & _).
  unfold Design.entries in *. rewrite map_app, IH. cbn.
  now destruct turn.
Qed.

Lemma entries_eq (a b : list WordRecord) :
  map word a = map word b -> map line a = map line b ->
  Design.entries a = Design.entries b.
Proof.
  revert b. induction a as [|x a IH]; intros [|y b]; cbn; try discriminate;
    [reflexivity|].
  intros [= Hw Hws] [= Hl Hls]. rewrite Hw, Hl. f_equal. now apply IH.
Qed.

Lemma entries_repair (ws : list WordRecord) :
  Design.entries (Guided.r_words (Guided.repair ws)) = Design.entries ws.
Proof.
  unfold Guided.repair.
  match goal with |- context [Guided.repair_loop ?ps ?st] =>
    destruct (repair_loop_frame ps st) as (_ & Hw & Hl) end.
  now apply entries_eq.
Qed.

Lemma filter_entries (ws : list WordRecord) (k : Z) :
  filter (fun e : Z * string => e.1 = k) (Design.entries ws)
    = Design.entries (filter (fun w => line w = k) ws).
Proof.
  unfold Design.entries.
  induction ws as [|w ws IH]; [reflexivity|]. cbn [map].
  destruct (decide (line w = k)) as [Hk|Hk].
  - rewrite !filter_cons_True by exact Hk. cbn. now rewrite IH.
  - rewrite !filter_cons_False by exact Hk. exact IH.
Qed.

Lemma snd_entries (ws : list WordRecord) : (Design.entries ws).*2 = map word ws.
Proof. induction ws as [|w ws IH]; cbn; [reflexivity|]. now f_equal. Qed.

Lemma snd_pair (k : Z) (ws : list string) : (map (pair k) ws).*2 = ws.
Proof. induction ws as [|w ws IH]; cbn; [reflexivity|]. now f_equal. Qed.

(** The mapping of the design document, read off the pairs. *)
Lemma lines_of_entries (ws : list WordRecord) (k : Z) :
  Design.lines_of ws !! k
    = match filter (fun e : Z * string => e.1 = k) (Design.entries ws) with
      | [] => None
      | es => Some (join " " es.*2)
      end.
Proof.
  unfold Design.lines_of.
  rewrite (lines_of_lookup ws (Design.line_text ws) k), filter_entries.
  unfold Design.line_text.
  rewrite <- (snd_entries (filter (fun w => line w = k) ws)).
  destruct (filter (fun w => line w = k) ws) as [|w rest].
  - now rewrite decide_True.
  - now rewrite decide_False by discriminate.
Qed.

(** On normalised lines the guided pipeline, too, has the mapping of
    the design document, under the written keys. *)
Lemma guided_lines (lyrics : list string) (aligned : list Guided.Aligned) :
  Forall Design.normalised lyrics ->
  Guided.line_texts lyrics
    = Design.written (Design.lines_of
        (Guided.r_words (Guided.repair (Guided.word_mapper lyrics aligned)))).
Proof.
  intros Hnorm. rewrite line_texts_kmap. unfold Design.written. f_equal.
  apply map_eq. intros k.
  rewrite lines_of_entries, entries_repair, word_mapper_run, entries_run_map.
  rewrite filter_expected.
  destruct ((map_seqZ 0 lyrics : gmap Z string) !! k) as [l|] eqn:Hl;
    [|reflexivity].
  apply lookup_map_seqZ_Some in Hl as [_ Hl].
  rewrite Forall_forall in Hnorm.
  destruct (Hnorm l) as [Hjoin Hne]; [eapply list_elem_of_lookup_2, Hl|].
  destruct (split l) as [|w ws]; [done|].
  transitivity (Some (join " " (map (pair k) (w :: ws)).*2)); [|reflexivity].
  now rewrite snd_pair, Hjoin.
Qed.

Lemma lyrics_normalised : Forall Design.normalised LYRICS_LINES.
Proof.
  unfold LYRICS_LINES, chorus.
  repeat (apply Forall_cons; split;
            [split; [vm_compute; reflexivity|vm_compute; discriminate]|]).
  apply Forall_nil. exact I.
Qed.

End Lines.

(** C9, as the program has it.  In the free pipeline the lines mapping
    of the document is the mapping of the design document: the records
    grouped by their line, the words of a line joined by a space in the
    order of the sequence.  In the guided pipeline the lines mapping is
    the list of ground-truth lines itself; it is the mapping of the design
    document, under the written keys, when every ground-truth line is
    normalised: it has a word and is the space-join of its own words. *)
Theorem lines_grouped :
  (forall segments,
     Free.out_lines (Free.transcribe segments)
       = Design.lines_of (Free.out_words (Free.transcribe segments))) /\
  (forall lyrics sections segments,
     Forall Design.normalised lyrics ->
     Guided.out_lines (Guided.transcribe lyrics sections segments)
       = Design.written (Design.lines_of
           (Guided.out_words (Guided.transcribe lyrics sections segments)))).
Proof.
  split.
  - intros segments. apply free_lines.
  - intros lyrics sections segments Hnorm. now apply guided_lines.
Qed.

(** The lines of the repository are normalised. *)
Lemma lines_grouped_witness :
  Forall Design.normalised LYRICS_LINES /\
  forall segments,
    Guided.out_lines (Guided.transcribe LYRICS_LINES section_map segments)
      = Design.written (Design.lines_of
          (Guided.out_words (Guided.transcribe LYRICS_LINES section_map segments))).
Proof.
  split; [exact lyrics_normalised|].
  intros segments.
  apply (proj2 lines_grouped LYRICS_LINES section_map segments lyrics_normalised).
Defined.

(** A ground-truth line with two spaces between its words is kept as it
    is in the guided lines mapping, while the space-join of its words has
    one space. *)
Lemma lines_not_grouped :
  Guided.out_lines (Guided.transcribe [ "hello  world" ] section_map [])
    <> Design.written (Design.lines_of
         (Guided.out_words (Guided.transcribe [ "hello  world" ] section_map []))).
Proof.
  intros H. apply (f_equal (fun m : gmap string string => m !! "0")) in H.
  vm_compute in H. discriminate H.
Qed.

(** ** An alignment without words *)

Lemma run_nothing_appended (turns : list (Z * WordObj)) :
  Free.appended turns = [] -> Free.words (Free.run turns) = [].
Proof.
  intros H. pose proof (run_remembers turns) as Hrem.
  unfold Free.remembers in Hrem. now rewrite H in Hrem.
Qed.

(** C8, as the program has it.  When the alignment has no word (none
    at all, or none that is not blank): the free pipeline has an empty
    sequence of records and assembles the empty document, with an empty
    lines mapping and both totals 0; the guided pipeline assembles a
    document too, in which the mapper has synthesised one record for each
    of the [W] expected words, so that [totalWords] is [W], and the lines
    mapping holds the ground-truth lines, so that [totalLines] is their
    number. *)
Theorem empty_alignment :
  (forall segments,
     Free.appended (Free.flat segments) = [] ->
     Design.empty_free (Free.transcribe segments)) /\
  (forall lyrics sections segments,
     Guided.observations segments = [] ->
     let out := Guided.transcribe lyrics sections segments in
     Guided.all_aligned_words segments = [] /\
     length (Guided.out_words out) = Design.expected_count lyrics /\
     Guided.totalWords out = Design.expected_count lyrics /\
     Guided.out_lines out = Guided.line_texts lyrics /\
     Guided.totalLines out = length lyrics).
Proof.
  split.
  - intros segments H. unfold Free.transcribe.
    rewrite segmenter_run, (run_nothing_appended _ H).
    repeat split.
  - intros lyrics sections segments H. cbv zeta.
    assert (Hlen : length (Guided.out_words
                             (Guided.transcribe lyrics sections segments))
                   = Design.expected_count lyrics).
    { unfold Guided.transcribe, Guided.repair. cbn [Guided.out_words].
      rewrite (proj1 (repair_loop_frame _ _)). cbn [Guided.r_words].
      apply mapper_count. }
    split; [|split; [exact Hlen|split; [exact Hlen|split; [reflexivity|]]]].
    + now rewrite all_aligned_words_observations, H.
    + apply size_line_texts.
Qed.

Lemma empty_alignment_witness :
  Design.empty_free (Free.transcribe [ mkSegment 0 [ mkWordObj "  " (lit 0) (lit 40) ] ]) /\
  Guided.totalWords (Guided.transcribe example_lyrics section_map []) = 4%nat.
Proof.
  split.
  - apply (proj1 empty_alignment). reflexivity.
  - apply (proj2 empty_alignment example_lyrics section_map []). reflexivity.
Defined.

(** With the ground truth ["hello world"; "goodbye now"] and no
    observation the guided document is not empty: it has four records. *)
Lemma empty_alignment_not_empty :
  Guided.observations [] = [] /\
  ~ Design.empty_guided (Guided.transcribe example_lyrics section_map []).
Proof.
  split; [reflexivity|].
  intros (H & _). vm_compute in H. discriminate H.
Qed.

(** * Further properties of the two scripts *)

(** ** [transcribe.py]: the records and their lines *)

Section FreeRecords.

Import Free.

#[local] Arguments step : simpl never.

(** A turn leaves the state alone, for a blank word, or appends one
    dictionary on the current line or on the next one; the next line is
    taken only after a first word. *)
Lemma step_cases (sid : Z) (st : State) (o : WordObj) :
  (truthy (strip (wo_word o)) = false /\ step sid st o = st) \/
  (truthy (strip (wo_word o)) = true /\
   exists l',
     (l' = line_idx st \/ (l' = line_idx st + 1 /\ words st <> [])) /\
     step sid st o
       = {| words := words st ++
              [ {| s_rec := {| word := strip (wo_word o);
                               time := round2 (wo_start o); line := l' |};
                   s_end := Some (round2 (wo_end o)) |} ];
            line_idx := l'; prev_seg := sid |}).
Proof.
  unfold step. destruct (truthy (strip (wo_word o))) eqn:Hw; cbn [negb].
  - right. split; [reflexivity|]. eexists. split; [|reflexivity].
    unfold breaks. destruct (last (words st)) as [lw|] eqn:Hl.
    + destruct (negb (sid =? prev_seg st) && _).
      * right. split; [reflexivity|]. intros Hnil. now rewrite Hnil in Hl.
      * now left.
    + now left.
  - left. now split.
Qed.

(** The shape of the lines after any number of turns. *)
Lemma run_lines (turns : list (Z * WordObj)) :
  let st := run turns in
  0 <= line_idx st /\
  (words st = [] -> line_idx st = 0) /\
  (forall lw, last (words st) = Some lw -> line (s_rec lw) = line_idx st) /\
  (forall lw, head (words st) = Some lw -> line (s_rec lw) = 0) /\
  (forall i a b, words st !! i = Some a -> words st !! S i = Some b ->
     line (s_rec b) = line (s_rec a) \/ line (s_rec b) = line (s_rec a) + 1) /\
  (forall k, (exists lw, lw ∈ words st /\ line (s_rec lw) = k) <->
             words st <> [] /\ 0 <= k <= line_idx st).
Proof.
  induction turns as [|[sid o] turns IH] using rev_ind.
  - cbn. split; [lia|]. split; [reflexivity|].
    split; [discriminate|]. split; [discriminate|].
    split; [intros i a b H; discriminate H|].
    intros k. split.
    + intros (lw & Hin & _). inversion Hin.
    + intros [H _]. now destruct H.
  - cbv zeta in *. rewrite run_snoc. cbn [fst snd].
    destruct IH as (I1 & I2 & I3 & I4 & I5 & I6).
    destruct (step_cases sid (run turns) o)
      as [[_ ->]|(_ & l' & Hl' & ->)]; [tauto|].
    destruct (run turns) as [ws li ps]. cbn [words line_idx] in *.
    assert (Hli : li <= l') by (destruct Hl' as [->|[-> _]]; lia).
    split; [lia|]. split; [intros H; now destruct ws|].
    split; [|split; [|split]].
    + intros lw. rewrite last_snoc. now intros [= <-].
    + intros lw Hhead. destruct ws as [|w0 ws].
      * cbn in Hhead. injection Hhead as <-. cbn.
        destruct Hl' as [->|[_ Hne]]; [now apply I2|now destruct Hne].
      * apply I4. exact Hhead.
    + intros i a b Ha Hb.
      apply lookup_snoc_Some in Hb as [[Hlt Hb]|[Hi <-]].
      * apply lookup_snoc_Some in Ha as [[_ Ha]|[Hi _]]; [eauto|lia].
      * apply lookup_snoc_Some in Ha as [[_ Ha]|[Hi' _]]; [|lia].
        assert (Hlast : last ws = Some a).
        { rewrite last_lookup. now replace (pred (length ws)) with i by lia. }
        rewrite (I3 a Hlast). cbn. destruct Hl' as [->|[-> _]]; auto.
    + intros k. split.
      * intros (lw & [Hin|Hin]%elem_of_app & Hk).
        -- split; [now destruct ws|].
           destruct (proj1 (I6 k)) as [_ ?]; [eauto|lia].
        -- apply list_elem_of_singleton in Hin as ->.
           cbn in Hk. split; [now destruct ws|lia].
      * intros [_ Hk]. destruct (decide (k = l')) as [->|Hne].
        -- eexists. split; [apply elem_of_app; right; apply list_elem_of_singleton;
                             reflexivity|reflexivity].
        -- assert (Hws : ws <> []).
           { intros ->. specialize (I2 eq_refl).
             destruct Hl' as [->|[_ Hn]]; [lia|now destruct Hn]. }
           destruct (proj2 (I6 k)) as (lw & Hin & Hlw).
           { split; [exact Hws|]. destruct Hl' as [->|[-> _]]; lia. }
           exists lw. split; [apply elem_of_app; now left|exact Hlw].
Qed.

(** The dictionaries are the words that are not blank, in order: the
    text stripped, start and end rounded. *)
Lemma run_words (turns : list (Z * WordObj)) :
  map (fun lw => (word (s_rec lw), time (s_rec lw), s_end lw)) (words (run turns))
    = map (fun turn => (strip (wo_word turn.2), round2 (wo_start turn.2),
                        Some (round2 (wo_end turn.2))))
        (appended turns).
Proof.
  induction turns as [|[sid o] turns IH] using rev_ind; [reflexivity|].
  rewrite run_snoc, appended_snoc. cbn [fst snd].
  destruct (step_cases sid (run turns) o)
    as [[Hw ->]|(Hw & l' & _ & ->)]; rewrite Hw.
  - now rewrite app_nil_r.
  - cbn [words]. rewrite !map_app, IH. reflexivity.
Qed.

End FreeRecords.

Section FreeDocument.

Import Free.

Lemma filter_line_nonempty (ws : list WordRecord) (k : Z) :
  filter (fun w => line w = k) ws <> [] <-> exists w, w ∈ ws /\ line w = k.
Proof.
  split.
  - destruct (filter (fun w => line w = k) ws) as [|w rest] eqn:Hf; [done|].
    intros _. exists w.
    assert (Hin : w ∈ filter (fun w => line w = k) ws)
      by (rewrite Hf; apply list_elem_of_here).
    apply list_elem_of_filter in Hin. tauto.
  - intros (w & Hin & Hk) Hnil.
    assert (Hw : w ∈ filter (fun w => line w = k) ws)
      by (apply list_elem_of_filter; tauto).
    rewrite Hnil in Hw. inversion Hw.
Qed.

(** The keys of the lines mapping after any number of turns. *)
Lemma run_keys (turns : list (Z * WordObj)) (k : Z) :
  is_Some (line_texts (unstage (words (run turns))) !! k) <->
  words (run turns) <> [] /\ 0 <= k <= line_idx (run turns).
Proof.
  rewrite free_lines. unfold Design.lines_of.
  rewrite (lines_of_lookup _ (Design.line_text _) k).
  destruct (run_lines turns) as (_ & _ & _ & _ & _ & Hcover).
  rewrite <- (Hcover k). unfold unstage.
  case_decide as Hf.
  - split; [intros [? [=]]|].
    intros (lw & Hin & Hk). exfalso.
    apply (proj2 (filter_line_nonempty (map s_rec (words (run turns))) k));
      [|exact Hf].
    exists (s_rec lw). split; [now apply list_elem_of_fmap_2|exact Hk].
  - split; [intros _|eauto].
    apply filter_line_nonempty in Hf as (w & Hin & Hk).
    apply list_elem_of_fmap in Hin as (lw & -> & Hin). eauto.
Qed.

Lemma run_size (turns : list (Z * WordObj)) :
  size (line_texts (unstage (words (run turns))))
    = if decide (words (run turns) = []) then 0%nat
      else Z.to_nat (line_idx (run turns) + 1).
Proof.
  case_decide as Hws.
  - rewrite Hws. reflexivity.
  - rewrite <- size_dom.
    assert (Hdom : dom (line_texts (unstage (words (run turns))))
                   = (list_to_set (seqZ 0 (line_idx (run turns) + 1)) : gset Z)).
    { apply set_eq. intros k.
      rewrite elem_of_dom, run_keys, elem_of_list_to_set, elem_of_seqZ.
      split; [lia|]. intros ?. split; [exact Hws|lia]. }
    rewrite Hdom, size_list_to_set by apply NoDup_seqZ.
    apply length_seqZ.
Qed.

End FreeDocument.

(** X1.  In the free pipeline the first record is on line 0 and every
    further record is on the line of the record before it or on the next
    line: the line indices go up without a gap. *)
Theorem free_lines_step (segments : list Segment) :
  let out := Free.out_words (Free.transcribe segments) in
  (forall a, out !! 0%nat = Some a -> line a = 0) /\
  (forall i a b, out !! i = Some a -> out !! S i = Some b ->
     line b = line a \/ line b = line a + 1).
Proof.
  cbv zeta. unfold Free.transcribe, Free.assemble, Free.unstage.
  cbn [Free.out_words]. rewrite segmenter_run.
  destruct (run_lines (Free.flat segments)) as (_ & _ & _ & Hhead & Hadj & _).
  split.
  - intros a Ha. apply list_lookup_fmap_Some in Ha as (lw & -> & Hlw).
    apply Hhead. now rewrite head_lookup.
  - intros i a b Ha Hb.
    apply list_lookup_fmap_Some in Ha as (la & -> & Hla).
    apply list_lookup_fmap_Some in Hb as (lb & -> & Hlb).
    eapply Hadj; eassumption.
Qed.

Lemma free_records_kept (segments : list Segment) :
  let out := Free.out_words (Free.transcribe segments) in
  let kept := Free.appended (Free.flat segments) in
  map word out = map (fun turn => strip (wo_word turn.2)) kept /\
  map time out = map (fun turn => round2 (wo_start turn.2)) kept /\
  length out = length kept.
Proof.
  cbv zeta. unfold Free.transcribe, Free.assemble, Free.unstage.
  cbn [Free.out_words]. rewrite segmenter_run.
  pose proof (run_words (Free.flat segments)) as H.
  split; [|split].
  - apply (f_equal (map (fun x : string * float * option float => x.1.1))) in H.
    rewrite !map_map in H. rewrite map_map. exact H.
  - apply (f_equal (map (fun x : string * float * option float => x.1.2))) in H.
    rewrite !map_map in H. rewrite map_map. exact H.
  - apply (f_equal length) in H. rewrite !length_map in H.
    now rewrite length_map.
Qed.

(** X2.  The records of the free pipeline are the words of the
    alignment whose text is not blank, in their order: the text is the
    stripped text, the time is the start rounded to two decimals, and no
    time is repaired. *)
Theorem free_records (segments : list Segment) :
  let out := Free.out_words (Free.transcribe segments) in
  let kept := Free.appended (Free.flat segments) in
  map word out = map (fun turn => strip (wo_word turn.2)) kept /\
  map time out = map (fun turn => round2 (wo_start turn.2)) kept /\
  length out = length kept.
Proof. apply free_records_kept. Qed.

Lemma free_keys_range (segments : list Segment) :
  let out := Free.transcribe segments in
  (forall k, is_Some (Free.out_lines out !! k)
             <-> 0 <= k < Z.of_nat (Free.totalLines out)) /\
  Free.totalLines out
    = (if decide (Free.out_words out = []) then 0%nat
       else Z.to_nat (Free.line_idx (Free.segmenter segments) + 1)).
Proof.
  cbv zeta. unfold Free.transcribe, Free.assemble.
  cbn [Free.out_lines Free.totalLines Free.out_words].
  rewrite segmenter_run.
  pose proof (run_size (Free.flat segments)) as Hsize.
  destruct (run_lines (Free.flat segments)) as (Hpos & _).
  assert (Hnil : Free.unstage (Free.words (Free.run (Free.flat segments))) = []
                 <-> Free.words (Free.run (Free.flat segments)) = []).
  { unfold Free.unstage.
    destruct (Free.words (Free.run (Free.flat segments))); cbn; split; congruence. }
  split.
  - intros k. rewrite run_keys, Hsize. case_decide; intuition lia.
  - rewrite Hsize. repeat case_decide; try reflexivity; tauto.
Qed.

(** X3.  The keys of the lines mapping of the free pipeline are the
    integers from 0 up to, and without, [totalLines]; the number of
    lines is 0 without a record and otherwise the last line index plus
    one. *)
Theorem free_line_keys (segments : list Segment) :
  let out := Free.transcribe segments in
  (forall k, is_Some (Free.out_lines out !! k)
             <-> 0 <= k < Z.of_nat (Free.totalLines out)) /\
  Free.totalLines out
    = (if decide (Free.out_words out = []) then 0%nat
       else Z.to_nat (Free.line_idx (Free.segmenter segments) + 1)).
Proof. apply free_keys_range. Qed.

(** X4.  The preview at the end of [transcribe.py] never raises: for
    each of the first six lines, or of all lines when they are fewer,
    [next] finds a first word and [line_texts] has the key. *)
Theorem preview_succeeds (segments : list Segment) :
  exists rows,
    More.preview (Free.transcribe segments) = Some rows /\
    length rows = (6 `min` Free.totalLines (Free.transcribe segments))%nat.
Proof.
  assert (Hsome : is_Some (More.preview (Free.transcribe segments))).
  { unfold More.preview. apply mapM_is_Some, Forall_forall.
    intros i Hi%elem_of_seq. cbn [compose]. unfold More.preview_row.
    destruct (free_keys_range segments) as [Hkeys _]. cbv zeta in Hkeys.
    assert (Hk : is_Some (Free.out_lines (Free.transcribe segments) !! Z.of_nat i)).
    { apply Hkeys. change (Free.totalLines (Free.transcribe segments))
        with (size (Free.out_lines (Free.transcribe segments))). lia. }
    destruct Hk as [text Htext]. rewrite Htext.
    assert (Hf : is_Some (Design.first_word
                   (Free.out_words (Free.transcribe segments)) (Z.of_nat i))).
    { unfold Design.first_word.
      pose proof Htext as Hl.
      unfold Free.transcribe, Free.assemble in Hl. cbn [Free.out_lines] in Hl.
      rewrite free_lines in Hl. unfold Design.lines_of in Hl.
      rewrite (lines_of_lookup _ (Design.line_text _) (Z.of_nat i)) in Hl.
      case_decide as Hnil; [discriminate|].
      unfold Free.transcribe, Free.assemble. cbn [Free.out_words].
      destruct (filter _ _); [done|]. cbn. eauto. }
    destruct Hf as [w Hw]. rewrite Hw. cbn. eauto. }
  destruct Hsome as [rows Hrows]. exists rows. split; [exact Hrows|].
  unfold More.preview in Hrows.
  apply mapM_Some, Forall2_length in Hrows. rewrite length_seq in Hrows.
  symmetry. exact Hrows.
Qed.

(** ** Words and white space *)

Section Words.

Import More.

(** Every word that [split] returns has a character. *)
Lemma split_from_truthy (s w : string) :
  Forall (fun x => truthy x = true) (split_from w s).
Proof.
  revert w. induction s as [|c s IH]; intros w; cbn.
  - destruct (truthy w) eqn:Hw; [|constructor].
    constructor; [exact Hw|constructor].
  - destruct (isspace c); [|apply IH].
    destruct (truthy w) eqn:Hw; [|apply IH].
    constructor; [exact Hw|apply IH].
Qed.

Lemma has_space_snoc (w : string) (c : ascii) :
  has_space (w +:+ String c EmptyString) = has_space w || isspace c.
Proof.
  induction w as [|d w IH]; simpl.
  - now destruct (isspace c).
  - rewrite IH. now destruct (isspace d), (has_space w), (isspace c).
Qed.

(** No word that [split] returns has white space in it. *)
Lemma split_from_no_space (s w : string) :
  has_space w = false ->
  Forall (fun x => has_space x = false) (split_from w s).
Proof.
  revert w. induction s as [|c s IH]; intros w Hw; cbn.
  - destruct (truthy w); [|constructor].
    constructor; [exact Hw|constructor].
  - destruct (isspace c) eqn:Hc.
    + destruct (truthy w); [|now apply IH].
      constructor; [exact Hw|now apply IH].
    + apply IH. now rewrite has_space_snoc, Hw, Hc.
Qed.

(** A white-space character between two texts separates their words. *)
Lemma split_from_separated (a b w : string) (sp : ascii) :
  isspace sp = true ->
  split_from w (a +:+ String sp b) = split_from w a ++ split b.
Proof.
  intros Hsp. revert w. induction a as [|c a IH]; intros w; simpl.
  - rewrite Hsp. unfold split. now destruct (truthy w).
  - destruct (isspace c); [|apply IH].
    destruct (truthy w); [|apply IH]. cbn. f_equal. apply IH.
Qed.

Lemma split_join_newline (lyrics : list string) :
  split (full_text lyrics) = lyrics ≫= split.
Proof.
  unfold full_text, join.
  induction lyrics as [|l lyrics IH]; [reflexivity|].
  destruct lyrics as [|l' lyrics].
  - cbn. now rewrite app_nil_r.
  - change (String.concat newline (l :: l' :: lyrics))
      with (l +:+ String (ascii_of_nat 10) (String.concat newline (l' :: lyrics))).
    unfold split at 1. rewrite split_from_separated by reflexivity.
    rewrite IH. reflexivity.
Qed.

Lemma expected_words (f : nat -> string -> Z * string) (lyrics : list string) :
  (forall i l, (f i l).2 = l) ->
  (imap f lyrics ≫= (fun entry => map (pair entry.1) (split entry.2))).*2
    = lyrics ≫= split.
Proof.
  revert f. induction lyrics as [|l lyrics IH]; intros f Hf; [reflexivity|].
  cbn. rewrite fmap_app, Hf, snd_pair. f_equal.
  apply IH. intros i l'. apply Hf.
Qed.

Lemma fst_pair (n : Z) (ws : list string) :
  Forall (fun k => k = n) (map (pair n) ws).*1.
Proof. induction ws as [|w ws IH]; cbn; constructor; auto. Qed.

Lemma expected_lines_sorted (lyrics : list string) :
  StronglySorted Z.le (Guided.expected lyrics).*1 /\
  Forall (fun k => 0 <= k < Z.of_nat (length lyrics)) (Guided.expected lyrics).*1.
Proof.
  induction lyrics as [|l lyrics [IHs IHb]] using rev_ind.
  - split; constructor.
  - rewrite expected_snoc, fmap_app, length_app.
    pose proof (fst_pair (Z.of_nat (length lyrics)) (split l)) as Hnew.
    rewrite Forall_forall in IHb, Hnew. split.
    + apply StronglySorted_app_2; [|exact IHs|].
      * intros k1 k2 H1 H2. rewrite (Hnew k2 H2). specialize (IHb k1 H1). lia.
      * clear IHs IHb. rewrite <- Forall_forall in Hnew.
        induction Hnew as [|k ks Hk Hks IH]; constructor; [exact IH|].
        eapply Forall_impl; [exact Hks|]. cbn. intros; lia.
    + apply Forall_app. split; apply Forall_forall.
      * intros k Hk. specialize (IHb k Hk). cbn. lia.
      * intros k Hk. rewrite (Hnew k Hk). cbn. lia.
Qed.

End Words.

Section GuidedRecords.

Lemma guided_entries (lyrics : list string) (sections : gmap Z string)
    (segments : list Segment) :
  Design.entries (Guided.out_words (Guided.transcribe lyrics sections segments))
    = Guided.expected lyrics.
Proof.
  unfold Guided.transcribe. cbn [Guided.out_words].
  now rewrite entries_repair, word_mapper_run, entries_run_map.
Qed.

Lemma fst_entries (ws : list WordRecord) : (Design.entries ws).*1 = map line ws.
Proof. induction ws as [|w ws IH]; cbn; [reflexivity|]. now f_equal. Qed.

Lemma expected_texts (lyrics : list string) :
  (Guided.expected lyrics).*2 = lyrics ≫= split.
Proof. apply expected_words. reflexivity. Qed.

Lemma split_words_clean (lyrics : list string) :
  Forall (fun x => truthy x = true /\ More.has_space x = false) (lyrics ≫= split).
Proof.
  induction lyrics as [|l lyrics IH]; [constructor|].
  cbn. apply Forall_app. split; [|exact IH].
  pose proof (split_from_truthy l EmptyString) as H1.
  pose proof (split_from_no_space l EmptyString eq_refl) as H2.
  unfold split. rewrite Forall_forall in *. intros x Hx. split; auto.
Qed.

End GuidedRecords.

(** X5.  No record has an empty word.  In the free pipeline a word
    whose stripped text is empty is skipped; in the guided pipeline the
    words come from [split], so they are not empty and hold no white
    space. *)
Theorem words_not_empty :
  (forall segments,
     Forall (fun w => truthy (word w) = true)
       (Free.out_words (Free.transcribe segments))) /\
  (forall lyrics sections segments,
     Forall (fun w => truthy (word w) = true /\ More.has_space (word w) = false)
       (Guided.out_words (Guided.transcribe lyrics sections segments))).
Proof.
  split.
  - intros segments.
    destruct (free_records_kept segments) as (Hw & _ & _). cbv zeta in Hw.
    apply (Forall_fmap word (fun x => truthy x = true)).
    change (word <$> Free.out_words (Free.transcribe segments))
      with (map word (Free.out_words (Free.transcribe segments))).
    rewrite Hw. unfold Free.appended.
    apply Forall_forall. intros x (turn & -> & Hin)%list_elem_of_fmap.
    apply list_elem_of_filter in Hin. tauto.
  - intros lyrics sections segments.
    apply (Forall_fmap word
             (fun x => truthy x = true /\ More.has_space x = false)).
    change (word <$> ?l) with (map word l).
    rewrite <- snd_entries, guided_entries, expected_texts.
    apply split_words_clean.
Qed.

(** X6.  The words and the line numbers of the guided document do not
    depend on the alignment: record by record they are the expected words
    of the ground truth, in order, each with the number of its line.  The
    alignment and the repair decide the times only. *)
Theorem guided_words_fixed (lyrics : list string) (sections : gmap Z string)
    (segments : list Segment) :
  map (fun w => (line w, word w))
      (Guided.out_words (Guided.transcribe lyrics sections segments))
    = Guided.expected lyrics.
Proof. apply guided_entries. Qed.

(** X7.  Along the records of the guided document the line numbers
    never go down, and each is the index of a ground-truth line. *)
Theorem guided_lines_sorted (lyrics : list string) (sections : gmap Z string)
    (segments : list Segment) :
  let out := Guided.out_words (Guided.transcribe lyrics sections segments) in
  StronglySorted Z.le (map line out) /\
  Forall (fun w => 0 <= line w < Z.of_nat (length lyrics)) out.
Proof.
  cbv zeta. destruct (expected_lines_sorted lyrics) as [Hs Hb].
  rewrite <- guided_entries with (sections := sections) (segments := segments)
    in Hs, Hb.
  rewrite fst_entries in Hs, Hb. split; [exact Hs|].
  now apply (Forall_fmap line (fun k => 0 <= k < Z.of_nat (length lyrics))).
Qed.

(** X8.  The text handed to the aligner, the ground-truth lines joined
    by a newline, splits at white space into exactly the expected words
    that the mapper walks, in the same order. *)
Theorem full_text_words (lyrics : list string) :
  split (More.full_text lyrics) = (Guided.expected lyrics).*2 /\
  length (split (More.full_text lyrics)) = Design.expected_count lyrics.
Proof.
  assert (H : split (More.full_text lyrics) = (Guided.expected lyrics).*2)
    by (now rewrite split_join_newline, expected_texts).
  split; [exact H|].
  rewrite H, length_fmap. apply length_expected.
Qed.

Section MapperReads.

Import Guided.

(** The mapper reads nothing of the observations but the starts of the
    first ones, as many as there are turns. *)
Lemma run_map_agree (a b : list Aligned) (turns : list (Z * string)) :
  (forall i, (i < length turns)%nat -> aw_start <$> a !! i = aw_start <$> b !! i) ->
  run_map a turns = run_map b turns.
Proof.
  induction turns as [|turn turns IH] using rev_ind; intros Hagree; [reflexivity|].
  rewrite !run_map_snoc, <- IH.
  2: { intros i Hi. apply Hagree. rewrite length_app. cbn. lia. }
  destruct (run_map_state a turns) as [_ Hidx].
  destruct (run_map a turns) as [words idx]. cbn in Hidx.
  assert (Hi : aw_start <$> a !! idx = aw_start <$> b !! idx).
  { apply Hagree. rewrite length_app. cbn. lia. }
  unfold map_turn, map_word.
  destruct (a !! idx) as [x|], (b !! idx) as [y|]; cbn in Hi;
    try discriminate; [|reflexivity].
  injection Hi as ->. reflexivity.
Qed.

End MapperReads.

(** X9.  The mapper reads nothing of the aligned observations but the
    starts of the first [W] of them: two lists that agree on these give
    the same records.  The recognised text and the end of an observation
    are never read, and observations beyond the [W]-th are ignored. *)
Theorem mapper_reads_starts (lyrics : list string) (a b : list Guided.Aligned) :
  (forall i, (i < Design.expected_count lyrics)%nat ->
     Guided.aw_start <$> a !! i = Guided.aw_start <$> b !! i) ->
  Guided.word_mapper lyrics a = Guided.word_mapper lyrics b.
Proof.
  intros H. rewrite !word_mapper_run. f_equal.
  apply run_map_agree. now rewrite length_expected.
Qed.

Lemma mapper_reads_starts_witness :
  Guided.word_mapper [ "hello world" ]
    [ Guided.mkAligned "hello" (lit 0) (lit 40);
      Guided.mkAligned "world" (lit 520) (lit 550) ]
  = Guided.word_mapper [ "hello world" ]
      [ Guided.mkAligned "hullo" (lit 0) (lit 900);
        Guided.mkAligned "wrld" (lit 520) (lit 0);
        Guided.mkAligned "extra" (lit 700) (lit 800) ].
Proof.
  apply (mapper_reads_starts [ "hello world" ]).
  intros [|[|i]] Hi; [reflexivity|reflexivity|].
  vm_compute in Hi. lia.
Defined.

(** X10.  Whatever the alignment, the guided document counts [W] words
    and as many lines as the ground truth has, also lines without a word;
    under the key [str(i)] the lines mapping holds the [i]-th ground-truth
    line as it was given, and it holds nothing else. *)
Theorem guided_totals (lyrics : list string) (sections : gmap Z string)
    (segments : list Segment) :
  let out := Guided.transcribe lyrics sections segments in
  Guided.totalWords out = Design.expected_count lyrics /\
  Guided.totalLines out = length lyrics /\
  (forall (i : nat) l, lyrics !! i = Some l ->
     Guided.out_lines out !! str (Z.of_nat i) = Some l) /\
  (forall key l, Guided.out_lines out !! key = Some l ->
     exists i : nat, key = str (Z.of_nat i) /\ lyrics !! i = Some l).
Proof.
  cbv zeta. unfold Guided.transcribe.
  cbn [Guided.totalWords Guided.totalLines Guided.out_lines].
  split; [|split; [|split]].
  - unfold Guided.repair. rewrite (proj1 (repair_loop_frame _ _)).
    cbn [Guided.r_words]. apply mapper_count.
  - apply size_line_texts.
  - intros i l Hl. rewrite line_texts_kmap, (lookup_kmap str).
    apply lookup_map_seqZ_Some. split; [lia|].
    now replace (Z.to_nat (Z.of_nat i - 0)) with i by lia.
  - intros key l Hkey. rewrite line_texts_kmap in Hkey.
    apply (lookup_kmap_Some str) in Hkey as (k & -> & Hk).
    apply lookup_map_seqZ_Some in Hk as [Hpos Hl].
    exists (Z.to_nat (k - 0)). split; [f_equal; lia|exact Hl].
Qed.

(** X11.  Grouping the records of the guided document by their line
    gives, for a ground-truth line with a word, the words of that line
    joined by single spaces, so the line with every run of white space
    collapsed and the white space at its ends dropped; a ground-truth line
    without a word, and an index that is no line, has no group. *)
Theorem guided_grouping (lyrics : list string) (sections : gmap Z string)
    (segments : list Segment) :
  let out := Guided.out_words (Guided.transcribe lyrics sections segments) in
  (forall (i : nat) l, lyrics !! i = Some l ->
     Design.lines_of out !! Z.of_nat i
       = if decide (split l = []) then None else Some (join " " (split l))) /\
  (forall k, k < 0 \/ Z.of_nat (length lyrics) <= k ->
     Design.lines_of out !! k = None).
Proof.
  cbv zeta. split.
  - intros i l Hl.
    rewrite lines_of_entries, guided_entries, filter_expected.
    assert (Hk : (map_seqZ 0 lyrics : gmap Z string) !! Z.of_nat i = Some l).
    { apply lookup_map_seqZ_Some. split; [lia|].
      now replace (Z.to_nat (Z.of_nat i - 0)) with i by lia. }
    rewrite Hk. case_decide as Hs.
    + now rewrite Hs.
    + destruct (split l) as [|w ws]; [done|].
      transitivity (Some (join " " (map (pair (Z.of_nat i)) (w :: ws)).*2));
        [reflexivity|].
      now rewrite snd_pair.
  - intros k Hk.
    rewrite lines_of_entries, guided_entries, filter_expected.
    assert (Hnone : (map_seqZ 0 lyrics : gmap Z string) !! k = None).
    { apply lookup_map_seqZ_None. lia. }
    now rewrite Hnone.
Qed.

Lemma guided_grouping_witness :
  Design.lines_of
    (Guided.out_words (Guided.transcribe [ "  hello   world " ] section_map []))
    !! 0 = Some "hello world".
Proof.
  destruct (guided_grouping [ "  hello   world " ] section_map []) as [H _].
  apply (H 0%nat "  hello   world "). reflexivity.
Defined.

(** ** The repair pass as one sweep, and the loop of passes *)

Section Sweep.

Import Guided More.

#[local] Arguments fix_at : simpl never.

Lemma fix_at_repaired (words : list WordRecord) (fixed i : nat) (p c : WordRecord) :
  words !! (i - 1)%nat = Some p -> words !! i = Some c ->
  fix_at (words, fixed) i
    = (<[ i := repaired p c ]> words, if anomalous p c then S fixed else fixed).
Proof.
  intros Hp Hc. unfold fix_at, repaired, anomalous. rewrite Hp, Hc.
  destruct (line c =? line p).
  - destruct (ltb (time c) (time p) || gtb (sub (time c) (time p)) (lit 400));
      [reflexivity|]. now rewrite list_insert_id.
  - destruct (ltb (time c) (time p)); [reflexivity|].
    destruct (gtb (sub (time c) (time p)) (lit 1000)); [reflexivity|].
    cbn. now rewrite list_insert_id.
Qed.

(** From position [length pre + 1] on, the pass is the sweep after the
    record [p] that stands at position [length pre]. *)
Lemma fold_fix_sweep (rest pre : list WordRecord) (p : WordRecord) (fixed : nat) :
  fold_left fix_at (seq (S (length pre)) (length rest)) (pre ++ p :: rest, fixed)
    = (pre ++ p :: (sweep p rest).1, (fixed + (sweep p rest).2)%nat).
Proof.
  revert pre p fixed. induction rest as [|c rest IH]; intros pre p fixed.
  - cbn. now rewrite Nat.add_0_r.
  - cbn [length seq fold_left].
    rewrite (fix_at_repaired _ _ _ p c).
    + replace (<[ S (length pre) := repaired p c ]> (pre ++ p :: c :: rest))
        with ((pre ++ [p]) ++ repaired p c :: rest).
      * replace (S (S (length pre))) with (S (length (pre ++ [p])))
          by (rewrite length_app; cbn; lia).
        rewrite IH. cbn [sweep fst snd]. rewrite <- app_assoc. cbn.
        f_equal. destruct (anomalous p c); lia.
      * rewrite <- app_assoc. cbn.
        rewrite (insert_app_r_alt pre _ (S (length pre))) by lia.
        now replace (S (length pre) - length pre)%nat with 1%nat by lia.
    + cbn. rewrite Nat.sub_0_r. rewrite lookup_app_r by lia.
      now rewrite Nat.sub_diag.
    + rewrite lookup_app_r by lia.
      now replace (S (length pre) - length pre)%nat with 1%nat by lia.
Qed.

Lemma sweep_count (p : WordRecord) (rest : list WordRecord) :
  ((sweep p rest).2 <= length rest)%nat /\ length (sweep p rest).1 = length rest.
Proof.
  revert p. induction rest as [|c rest IH]; intros p; cbn; [split; lia|].
  destruct (IH (repaired p c)) as [H1 H2].
  destruct (anomalous p c); split; lia.
Qed.

Lemma pass_sweep (w : WordRecord) (ws : list WordRecord) :
  fix_timestamps (w :: ws) = (w :: (sweep w ws).1, (sweep w ws).2).
Proof.
  unfold fix_timestamps.
  replace (length (w :: ws) - 1)%nat with (length ws) by (cbn; lia).
  apply (fold_fix_sweep ws [] w 0).
Qed.

End Sweep.

(** X12.  One call of [fix_timestamps] is one sweep from left to right:
    each record is tested against its predecessor as the sweep has left
    it, so a rewritten time is the base of the next test, and the
    returned count is the number of tests that found an anomaly.  The
    count is at most the number of records after the first; an empty
    list and a list of one record are returned as they are, with 0. *)
Theorem pass_is_sweep :
  Guided.fix_timestamps [] = ([], 0%nat) /\
  (forall w ws,
     Guided.fix_timestamps (w :: ws)
       = (w :: (More.sweep w ws).1, (More.sweep w ws).2)) /\
  (forall ws, ((Guided.fix_timestamps ws).2 <= length ws - 1)%nat).
Proof.
  split; [reflexivity|]. split; [exact pass_sweep|].
  intros [|w ws]; [cbn; lia|].
  rewrite pass_sweep. cbn. destruct (sweep_count w ws). lia.
Qed.

Section Loop.

Import Guided More.

#[local] Arguments fix_timestamps : simpl never.

Lemma sum_seq_shift (g : nat -> nat) (n : nat) :
  sum_list (map g (seq 0 (S n)))
    = (g 0%nat + sum_list (map (fun j => g (S j)) (seq 0 n)))%nat.
Proof.
  cbn [seq map sum_list]. f_equal.
  rewrite <- seq_shift, map_map. reflexivity.
Qed.

(** The loop over the passes [s, s + 1, ..., s + n - 1]. *)
Lemma repair_loop_shape (n s : nat) (st : Repair) :
  (0 < n)%nat ->
  let r := repair_loop (seq s n) st in
  exists k,
    (k < n)%nat /\
    pass_num r = Some (s + k)%nat /\
    r_words r = Nat.iter (S k) pass (r_words st) /\
    r_n r = Some (fixes (Nat.iter k pass (r_words st))) /\
    (forall j, (j < k)%nat -> fixes (Nat.iter j pass (r_words st)) <> 0%nat) /\
    ((S k < n)%nat -> r_n r = Some 0%nat) /\
    total_fixed r
      = (total_fixed st
         + sum_list (map (fun j => fixes (Nat.iter j pass (r_words st)))
                       (seq 0 (S k))))%nat.
Proof.
  revert s st. induction n as [|n IH]; intros s st Hn; [lia|].
  cbv zeta. cbn [seq repair_loop].
  destruct (fix_timestamps (r_words st)) as [ws c] eqn:Hfix.
  assert (Hws : ws = pass (r_words st)) by (unfold pass; now rewrite Hfix).
  assert (Hc : c = fixes (r_words st)) by (unfold fixes; now rewrite Hfix).
  destruct (Nat.eqb_spec c 0) as [Hz|Hnz].
  - exists 0%nat. cbn. rewrite Nat.add_0_r, <- Hws, <- Hc.
    split; [lia|]. split; [reflexivity|]. split; [reflexivity|].
    split; [reflexivity|]. split; [intros j Hj; lia|].
    split; [intros _; now rewrite Hz|lia].
  - destruct n as [|n].
    + exists 0%nat. cbn. rewrite Nat.add_0_r, <- Hws, <- Hc.
      split; [lia|]. split; [reflexivity|]. split; [reflexivity|].
      split; [reflexivity|]. split; [intros j Hj; lia|].
      split; [intros Hlt; lia|lia].
    + match goal with |- context [repair_loop _ ?st1] =>
        destruct (IH (S s) st1) as (k & Hk & Hp & Hw & Hrn & Hall & Hz & Ht);
          [lia|] end.
      cbv zeta in Hp, Hw, Hrn, Hz, Ht. cbn [r_words total_fixed] in *.
      exists (S k). split; [lia|]. split; [rewrite Hp; f_equal; lia|].
      split; [rewrite Hw, Hws; now rewrite <- !Nat.iter_succ_r|].
      split; [rewrite Hrn, Hws; now rewrite <- Nat.iter_succ_r|].
      split; [|split].
      * intros [|j] Hj; [cbn; congruence|].
        rewrite Nat.iter_succ_r, <- Hws. apply Hall. lia.
      * intros Hlt. apply Hz. lia.
      * rewrite Ht. change (0%nat :: seq 1 (S k)) with (seq 0 (S (S k))).
        rewrite
          (sum_seq_shift (fun j => fixes (Nat.iter j pass (r_words st))) (S k)).
        change (fixes (Nat.iter 0 pass (r_words st))) with (fixes (r_words st)).
        rewrite <- Hc, Nat.add_assoc. f_equal.
        f_equal. apply map_ext. intros j.
        now rewrite Nat.iter_succ_r, <- Hws.
Qed.

Lemma iter_pass_frame (k : nat) (ws : list WordRecord) :
  let out := Nat.iter k pass ws in
  length out = length ws /\ map word out = map word ws /\
  map line out = map line ws /\ out !! 0%nat = ws !! 0%nat.
Proof.
  induction k as [|k (H1 & H2 & H3 & H4)]; [cbn; tauto|].
  destruct (pass_frame (Nat.iter k pass ws)) as (F1 & F2 & F3 & F4).
  cbv zeta in *.
  change (Nat.iter (S k) pass ws) with (pass (Nat.iter k pass ws)).
  set (x := Nat.iter k pass ws) in *. unfold pass.
  rewrite F1, F2, F3, F4. tauto.
Qed.

End Loop.

(** X13.  The loop of passes runs at most five passes and stops after
    the first pass that returns zero: with [k + 1] the number of passes
    run, [pass_num] is [k], at most 4; the list is the [k + 1]-fold pass
    of the input; no pass before the last returned zero; the last one
    returned zero unless all five were run; and [total_fixed] is the sum
    of the counts of the passes run. *)
Theorem repair_passes (words : list WordRecord) :
  let r := Guided.repair words in
  exists k,
    (k <= 4)%nat /\
    Guided.pass_num r = Some k /\
    Guided.r_words r = Nat.iter (S k) More.pass words /\
    Guided.r_n r = Some (More.fixes (Nat.iter k More.pass words)) /\
    (forall j, (j < k)%nat -> More.fixes (Nat.iter j More.pass words) <> 0%nat) /\
    ((k < 4)%nat -> Guided.r_n r = Some 0%nat) /\
    Guided.total_fixed r
      = sum_list (map (fun j => More.fixes (Nat.iter j More.pass words))
                    (seq 0 (S k))).
Proof.
  cbv zeta. unfold Guided.repair.
  match goal with |- context [Guided.repair_loop _ ?st] =>
    destruct (repair_loop_shape 5 0 st) as (k & Hk & Hp & Hw & Hn & Hall & Hz & Ht);
      [lia|] end.
  cbv zeta in *. cbn [Guided.r_words Guided.total_fixed] in *.
  exists k. split; [lia|]. split; [exact Hp|]. split; [exact Hw|].
  split; [exact Hn|]. split; [exact Hall|]. split; [|exact Ht].
  intros Hlt. apply Hz. lia.
Qed.

(** X14.  The whole loop of passes, like one pass, writes times only:
    the list it leaves has the length of its input, the same first
    record, and the same word and line at every position. *)
Theorem repair_writes_times_only (words : list WordRecord) :
  let out := Guided.r_words (Guided.repair words) in
  length out = length words /\
  out !! 0%nat = words !! 0%nat /\
  map word out = map word words /\
  map line out = map line words.
Proof.
  cbv zeta. unfold Guided.repair.
  match goal with |- context [Guided.repair_loop _ ?st] =>
    destruct (repair_loop_shape 5 0 st) as (k & _ & _ & Hw & _); [lia|] end.
  cbv zeta in Hw. cbn [Guided.r_words] in Hw. rewrite Hw.
  destruct (iter_pass_frame (S k) words) as (H1 & H2 & H3 & H4).
  tauto.
Qed.

(** ** Which sections the guided document has *)

Section SectionLabels.

Import Guided More.

Lemma filter_expected_worded (lyrics : list string) (k : Z) :
  filter (fun e : Z * string => e.1 = k) (expected lyrics) <> []
  <-> worded lyrics k = true.
Proof.
  rewrite filter_expected, lookup_map_seqZ. unfold worded.
  destruct (decide (0 <= k)) as [Hk|Hk].
  - rewrite option_guard_True, Z.sub_0_r, bool_decide_eq_true_2 by exact Hk.
    cbn. destruct (lyrics !! Z.to_nat k) as [l|]; [|done].
    destruct (split l); cbn; split; congruence.
  - rewrite option_guard_False, bool_decide_eq_false_2 by exact Hk.
    cbn. split; congruence.
Qed.

Lemma first_word_worded (lyrics : list string) (sections : gmap Z string)
    (segments : list Segment) (k : Z) :
  is_Some (Design.first_word (out_words (transcribe lyrics sections segments)) k)
  <-> worded lyrics k = true.
Proof.
  rewrite <- filter_expected_worded,
    <- (guided_entries lyrics sections segments), filter_entries.
  unfold Design.first_word.
  destruct (filter _ (out_words _)) as [|w ws]; cbn; split;
    try congruence; try (intros [? [=]]); eauto.
Qed.

Lemma section_labels (lyrics : list string) (sections : gmap Z string)
    (segments : list Segment) :
  map label (out_sections (transcribe lyrics sections segments))
    = (filter (fun e : Z * string => worded lyrics e.1 = true)
         (sorted_items sections)).*2.
Proof.
  unfold transcribe at 1. cbn [out_sections].
  change (r_words (repair (word_mapper lyrics (all_aligned_words segments))))
    with (out_words (transcribe lyrics sections segments)).
  unfold sections_of. rewrite fold_label. cbn [app].
  induction (sorted_items sections) as [|e items IH]; [reflexivity|].
  cbn [omap list_omap]. unfold Design.anchored at 1.
  pose proof (first_word_worded lyrics sections segments e.1) as Hw.
  destruct (Design.first_word (out_words (transcribe lyrics sections segments)) e.1)
    as [w|].
  - rewrite filter_cons_True by (apply Hw; eauto). cbn. f_equal. exact IH.
  - rewrite filter_cons_False; [exact IH|].
    intros Htrue. apply Hw in Htrue as [? [=]].
Qed.

End SectionLabels.

(** X15.  Which sections the guided document has, and in which order,
    is decided by the ground truth alone: the labels of the sections are
    the labels of the mapped lines, by ascending line index, whose
    ground-truth line exists and has a word.  The alignment decides the
    times of the sections only. *)
Theorem sections_follow_ground_truth (lyrics : list string)
    (sections : gmap Z string) (segments : list Segment) :
  map Guided.label (Guided.out_sections (Guided.transcribe lyrics sections segments))
    = (filter (fun e : Z * string => More.worded lyrics e.1 = true)
         (Guided.sorted_items sections)).*2.
Proof. apply section_labels. Qed.

(** For every alignment the script writes its five sections. *)
Example script_sections (segments : list Segment) :
  map Guided.label
    (Guided.out_sections (Guided.transcribe LYRICS_LINES section_map segments))
  = [ "Verse 1"; "Pre-Chorus"; "Chorus"; "Verse 2"; "Chorus" ].
Proof. rewrite section_labels. vm_compute. reflexivity. Qed.

(** X16.  The list [all_aligned_words] holds one entry for each word of
    the alignment whose stripped text is not empty, in the order of the
    segments and of their words: the entry has the stripped text and the
    start and end rounded to two decimals.  A blank word leaves no entry,
    so it never takes the place of an expected word. *)
Theorem aligned_words_kept (segments : list Segment) :
  Guided.all_aligned_words segments
    = map Guided.aligned_of (Guided.observations segments) /\
  Forall (fun aw => truthy (Guided.aw_word aw) = true)
    (Guided.all_aligned_words segments) /\
  (length (Guided.all_aligned_words segments)
     <= length (segments ≫= seg_words))%nat.
Proof.
  rewrite all_aligned_words_observations. split; [reflexivity|]. split.
  - apply Forall_forall. intros aw (o & -> & Ho)%list_elem_of_fmap.
    unfold Guided.observations in Ho. apply list_elem_of_filter in Ho.
    cbn. tauto.
  - rewrite length_map. unfold Guided.observations. apply length_filter.
Qed.
